(** * nodzilla: the domain freshness store and its HTTP front

    A shallow embedding of [pkg/db] (the [Entry] type, the [NodDB]
    operations as [PebbleDB] implements them) and of the parts of
    [pkg/api] that decide who may call them and which status code the
    caller sees.

    The storage engine, the clock and the JSON codec are libraries the
    program calls; they are modelled here by what the program observes of
    them, and every operation of the program is written over that model in
    the order the Go source performs it. *)

From Stdlib Require Import ZArith NArith Lia List Ascii String Bool.
From stdpp Require Import base option list gmap strings.

Local Open Scope Z_scope.

(** ** Machine integers *)

Module Int64.

Definition min_int : Z := - 2 ^ 63.
Definition max_int : Z := 2 ^ 63 - 1.

Definition in_range (z : Z) : Prop := min_int <= z <= max_int.

Definition in_rangeb (z : Z) : bool := (min_int <=? z) && (z <=? max_int).

(** Two's complement wrap-around of a 64-bit signed integer. *)
Definition wrap (z : Z) : Z := (z + 2 ^ 63) mod 2 ^ 64 - 2 ^ 63.

End Int64.

(** ** package time *)

(** An instant, as the program can observe it: whole seconds since the
    Unix epoch and the nanoseconds within that second.  The location of a
    [time.Time] and its monotonic reading are left out; no operation of
    the store looks at them. *)
Record Time : Type := mkTime { sec : Z; nsec : Z }.

(** [t.Unix()] *)
Definition Time_Unix (t : Time) : Z := Int64.wrap (sec t).

(** [time.Unix(sec, nsec)]: nanoseconds outside [0, 1e9) are carried into
    the seconds; Go's [/] truncates towards zero. *)
Definition time_Unix (s ns : Z) : Time :=
  if (ns <? 0) || (1000000000 <=? ns) then
    let n := Z.quot ns 1000000000 in
    let s1 := Int64.wrap (s + n) in
    let ns1 := ns - n * 1000000000 in
    if ns1 <? 0 then mkTime (Int64.wrap (s1 - 1)) (ns1 + 1000000000)
    else mkTime s1 ns1
  else mkTime s ns.

(** The zero value [time.Time{}]: January 1, year 1, 00:00:00 UTC. *)
Definition Time_zero : Time := mkTime (-62135596800) 0.

(** The Unix epoch, 1970-01-01T00:00:00Z. *)
Definition epoch : Time := time_Unix 0 0.

(** [t.Truncate(time.Second)]: the instant with its sub-second part
    dropped. *)
Definition Time_Truncate_Second (t : Time) : Time := mkTime (sec t) 0.

(** A [time.Time] the runtime can hold. *)
Definition Time_valid (t : Time) : Prop :=
  Int64.in_range (sec t) /\ 0 <= nsec t < 1000000000.

(** ** package db: the data model *)

(** [type Entry struct { Domain string; RegistrationDate time.Time }] *)
Record Entry : Type := mkEntry { Domain : string; RegistrationDate : Time }.

(** The zero value [Entry{}]. *)
Definition Entry_zero : Entry := mkEntry EmptyString Time_zero.

(** [type Value struct { FirstObserved int64; TimeAdded int64 }] *)
Record Value : Type := mkValue { FirstObserved : Z; TimeAdded : Z }.

Definition Value_zero : Value := mkValue 0 0.

Definition Value_valid (v : Value) : Prop :=
  Int64.in_range (FirstObserved v) /\ Int64.in_range (TimeAdded v).

(** What the storage engine can report besides absence of a key. *)
Inductive fault : Type :=
| FaultClosed
| FaultCorruption
| FaultIO (msg : string).

(** The [error] values that travel through the store. *)
Inductive error : Type :=
| ErrNotFound                 (* pebble.ErrNotFound *)
| EngineErr (f : fault)       (* any other error of the engine *)
| JSONErr.                    (* an error of json.Unmarshal *)

#[global] Instance fault_eq_dec : EqDecision fault.
Proof. solve_decision. Defined.

#[global] Instance error_eq_dec : EqDecision error.
Proof. solve_decision. Defined.

(** ** encoding/json, as far as [Value] needs it *)

Module JSON.

Local Open Scope N_scope.

Definition dquote : ascii := "034"%char.
Definition backslash : ascii := "092"%char.

Definition quoted (s : string) : string :=
  String dquote (s +:+ String dquote EmptyString).

(** The decimal digit [d] as a byte: [byte(d + '0')]. *)
Definition digit_char (d : N) : ascii := ascii_of_N (48 + d).

(** [strconv.formatBits] in base 10: digits are produced from the least
    significant one and written in front of what is already there.  The
    loop runs once per digit; [fuel] bounds it by the 20 digits an
    unsigned 64-bit number can have. *)
Fixpoint formatBits (fuel : nat) (us : N) (acc : string) : string :=
  match fuel with
  | O => acc
  | S fuel' =>
      if 10 <=? us
      then formatBits fuel' (us / 10) (String (digit_char (us mod 10)) acc)
      else String (digit_char us) acc
  end.

(** [strconv.FormatInt(z, 10)] *)
Definition FormatInt (z : Z) : string :=
  if (z <? 0)%Z
  then String "-" (formatBits 20 (Z.to_N (- z)) EmptyString)
  else formatBits 20 (Z.to_N z) EmptyString.

(** [json.Marshal(value)] for a [Value]: the two members in declaration
    order under their tags, no white space. *)
Definition Marshal (v : Value) : string :=
  String "{" (quoted "first_observed" +:+ ":") +:+
  (FormatInt (FirstObserved v) +:+
   (String "," (quoted "now" +:+ ":") +:+
    (FormatInt (TimeAdded v) +:+ "}"))).

(** *** Decoding *)

Inductive field : Type := FFirstObserved | FTimeAdded.

Definition to_lower (c : ascii) : ascii :=
  let n := N_of_ascii c in
  if (65 <=? n) && (n <=? 90) then ascii_of_N (n + 32) else c.

Fixpoint lower (s : string) : string :=
  match s with
  | EmptyString => EmptyString
  | String c s' => String (to_lower c) (lower s')
  end.

(** A member name selects the field whose tag it equals, or else the
    field whose tag it equals up to letter case. *)
Definition field_of_key (k : string) : option field :=
  if String.eqb k "first_observed" then Some FFirstObserved
  else if String.eqb k "now" then Some FTimeAdded
  else if String.eqb (lower k) "first_observed" then Some FFirstObserved
  else if String.eqb (lower k) "now" then Some FTimeAdded
  else None.

(** Storing a number under a member name: an unknown name is skipped, a
    number that does not fit an [int64] is an error. *)
Definition store (v : Value) (k : string) (z : Z) : option Value :=
  match field_of_key k with
  | None => Some v
  | Some f =>
      if Int64.in_rangeb z then
        Some match f with
             | FFirstObserved => mkValue z (TimeAdded v)
             | FTimeAdded => mkValue (FirstObserved v) z
             end
      else None
  end.

Definition is_space (c : ascii) : bool :=
  let n := N_of_ascii c in
  (n =? 32) || (n =? 9) || (n =? 10) || (n =? 13).

Definition is_digit (c : ascii) : bool :=
  let n := N_of_ascii c in (48 <=? n) && (n <=? 57).

Definition digit_val (c : ascii) : N := N_of_ascii c - 48.

Definition signed (neg : bool) (n : N) : Z :=
  if neg then (- Z.of_N n)%Z else Z.of_N n.

(** The scanner's states while it reads one object of integer members. *)
Inductive jstate : Type :=
| JStart                                      (* before the object *)
| JOpen (v : Value)                           (* after the opening brace *)
| JKey (v : Value) (k : string)               (* inside a member name *)
| JColon (v : Value) (k : string)             (* after the name *)
| JVal (v : Value) (k : string)               (* after the colon *)
| JNeg (v : Value) (k : string)               (* after a minus sign *)
| JZero (v : Value) (k : string)              (* after a leading zero *)
| JNum (v : Value) (k : string) (neg : bool) (n : N)   (* inside a number *)
| JNext (v : Value)                           (* after a member *)
| JComma (v : Value)                          (* after a comma *)
| JEnd (v : Value)                            (* after the closing brace *)
| JFail.

(** The byte that follows a number ends the member. *)
Definition close_value (ov : option Value) (c : ascii) : jstate :=
  match ov with
  | None => JFail
  | Some v =>
      if is_space c then JNext v
      else if Ascii.eqb c "," then JComma v
      else if Ascii.eqb c "}" then JEnd v
      else JFail
  end.

Definition step (st : jstate) (c : ascii) : jstate :=
  match st with
  | JStart =>
      if is_space c then JStart
      else if Ascii.eqb c "{" then JOpen Value_zero
      else JFail
  | JOpen v =>
      if is_space c then JOpen v
      else if Ascii.eqb c dquote then JKey v EmptyString
      else if Ascii.eqb c "}" then JEnd v
      else JFail
  | JComma v =>
      if is_space c then JComma v
      else if Ascii.eqb c dquote then JKey v EmptyString
      else JFail
  | JKey v k =>
      if Ascii.eqb c dquote then JColon v k
      else if Ascii.eqb c backslash || (N_of_ascii c <? 32) then JFail
      else JKey v (k +:+ String c EmptyString)
  | JColon v k =>
      if is_space c then JColon v k
      else if Ascii.eqb c ":" then JVal v k
      else JFail
  | JVal v k =>
      if is_space c then JVal v k
      else if Ascii.eqb c "-" then JNeg v k
      else if Ascii.eqb c "0" then JZero v k
      else if is_digit c then JNum v k false (digit_val c)
      else JFail
  | JNeg v k =>
      if Ascii.eqb c "0" then JZero v k
      else if is_digit c then JNum v k true (digit_val c)
      else JFail
  | JZero v k => close_value (store v k 0) c
  | JNum v k neg n =>
      if is_digit c then JNum v k neg (10 * n + digit_val c)
      else close_value (store v k (signed neg n)) c
  | JNext v =>
      if is_space c then JNext v
      else if Ascii.eqb c "," then JComma v
      else if Ascii.eqb c "}" then JEnd v
      else JFail
  | JEnd v => if is_space c then JEnd v else JFail
  | JFail => JFail
  end.

Fixpoint run (st : jstate) (s : string) : jstate :=
  match s with
  | EmptyString => st
  | String c s' => run (step st c) s'
  end.

(** [json.Unmarshal(data, &value)] with [value] the zero [Value].  The
    decoder covers the documents whose members are integers (the ones
    [Marshal] writes, in any member order, with white space, unknown or
    repeated names); every other input is reported as an error.  It is
    therefore stricter than the library on documents the store never
    writes: a [null] member, a member of another type under an unknown
    name, an escape in a name and the non-ASCII letters the library folds
    onto ASCII ones are all refused here. *)
Definition Unmarshal (data : string) : Value * option error :=
  match run JStart data with
  | JEnd v => (v, None)
  | _ => (Value_zero, Some JSONErr)
  end.

End JSON.

(** ** The world the store runs in *)

(** What the program cannot decide itself: whether the n-th call into the
    storage engine meets a failure, and what the wall clock shows at the
    n-th reading. *)
Record Env : Type := mkEnv {
  io_fault : nat -> option fault;
  wall_clock : nat -> Time
}.

(** One element of an engine batch. *)
Inductive batch_op : Type :=
| BSet (key value : string)
| BDelete (key : string).

(** The calls that reached the engine, oldest first. *)
Inductive engine_op : Type :=
| EGet (key : string)
| ESet (key value : string)
| EDelete (key : string)
| ECommit (ops : list batch_op).

Record World : Type := mkWorld {
  kv : gmap string string;      (* the engine's content: key bytes to value bytes *)
  log : list engine_op;         (* the engine calls made so far *)
  ticks : nat;                  (* the clock readings made so far *)
  env : Env
}.

(** Go functions that touch the engine or the clock, as state passing. *)
Definition M (A : Type) : Type := World -> A * World.

Definition ret {A : Type} (a : A) : M A := fun w => (a, w).

Definition bind {A B : Type} (m : M A) (k : A -> M B) : M B :=
  fun w => let (a, w') := m w in k a w'.

Notation "'letM' x ':=' m 'in' k" := (bind m (fun x => k))
  (at level 10, x name, m at level 200, k at level 200, only parsing).
Notation "'letM' ' pat ':=' m 'in' k" :=
  (bind m (fun x => match x with pat => k end))
  (at level 10, pat pattern, m at level 200, k at level 200, only parsing).

(** [time.Now()] *)
Definition time_Now : M Time :=
  fun w => (wall_clock (env w) (ticks w),
            mkWorld (kv w) (log w) (S (ticks w)) (env w)).

(** ** github.com/cockroachdb/pebble, as the store uses it

    Point reads and writes and batches.  A call that meets a failure
    returns the engine's error and leaves the content as it was; a batch
    is applied by [Commit] as one unit.  [Delete] is blind: it succeeds
    whether or not the key exists. *)
Module pebble.

Definition Batch : Type := list batch_op.

Definition apply_op (m : gmap string string) (o : batch_op) : gmap string string :=
  match o with
  | BSet k v => <[k := v]> m
  | BDelete k => delete k m
  end.

Definition apply_batch (b : Batch) (m : gmap string string) : gmap string string :=
  fold_left apply_op b m.

(** The engine call [o]: its outcome is the environment's, and it is
    recorded. *)
Definition call (o : engine_op) : M (option fault) :=
  fun w => (io_fault (env w) (length (log w)),
            mkWorld (kv w) (log w ++ [o]) (ticks w) (env w)).

Definition write (f : gmap string string -> gmap string string) : M unit :=
  fun w => (tt, mkWorld (f (kv w)) (log w) (ticks w) (env w)).

Definition read : M (gmap string string) := fun w => (kv w, w).

(** [db.Get(key)]: the value, or [ErrNotFound], or the engine's error. *)
Definition Get (key : string) : M (string * option error) :=
  letM io := call (EGet key) in
  match io with
  | Some f => ret (EmptyString, Some (EngineErr f))
  | None =>
      letM m := read in
      match m !! key with
      | Some v => ret (v, None)
      | None => ret (EmptyString, Some ErrNotFound)
      end
  end.

(** [db.Set(key, value, pebble.Sync)] *)
Definition Set_ (key value : string) : M (option error) :=
  letM io := call (ESet key value) in
  match io with
  | Some f => ret (Some (EngineErr f))
  | None => letM _ := write (insert key value) in ret None
  end.

(** [db.Delete(key, pebble.Sync)] *)
Definition Delete (key : string) : M (option error) :=
  letM io := call (EDelete key) in
  match io with
  | Some f => ret (Some (EngineErr f))
  | None => letM _ := write (delete key) in ret None
  end.

(** [db.NewBatch()] *)
Definition NewBatch : Batch := [].

(** [batch.Set(key, value, _)]: queued in memory, nothing reaches the
    engine before [Commit]. *)
Definition Batch_Set (b : Batch) (key value : string) : Batch :=
  b ++ [BSet key value].

(** [batch.Delete(key, _)] *)
Definition Batch_Delete (b : Batch) (key : string) : Batch :=
  b ++ [BDelete key].

(** [batch.Commit(pebble.Sync)] *)
Definition Batch_Commit (b : Batch) : M (option error) :=
  letM io := call (ECommit b) in
  match io with
  | Some f => ret (Some (EngineErr f))
  | None => letM _ := write (apply_batch b) in ret None
  end.

End pebble.

(** ** package db: [PebbleDB] *)

(** The [Value] that [Add] and [AddMany] build for an entry. *)
Definition value_of (entry : Entry) (now : Time) : Value :=
  mkValue (Time_Unix (RegistrationDate entry)) (Time_Unix now).

(** [func (db *PebbleDB) Add(entry Entry) error] *)
Definition Add (entry : Entry) : M (option error) :=
  letM now := time_Now in
  let value := value_of entry now in
  let j := JSON.Marshal value in
  pebble.Set_ (Domain entry) j.

(** The loop of [AddMany]: one clock reading and one queued write per
    entry, in order. *)
Fixpoint AddMany_loop (entries : list Entry) (batch : pebble.Batch) : M pebble.Batch :=
  match entries with
  | [] => ret batch
  | entry :: rest =>
      letM now := time_Now in
      let value := value_of entry now in
      let j := JSON.Marshal value in
      AddMany_loop rest (pebble.Batch_Set batch (Domain entry) j)
  end.

(** [func (db *PebbleDB) AddMany(entries []Entry) error] *)
Definition AddMany (entries : list Entry) : M (option error) :=
  letM batch := AddMany_loop entries pebble.NewBatch in
  pebble.Batch_Commit batch.

(** [func (db *PebbleDB) Delete(domain string) error] *)
Definition Delete (domain : string) : M (option error) :=
  pebble.Delete domain.

(** The loop of [DeleteMany]. *)
Fixpoint DeleteMany_loop (domains : list string) (batch : pebble.Batch) : pebble.Batch :=
  match domains with
  | [] => batch
  | domain :: rest => DeleteMany_loop rest (pebble.Batch_Delete batch domain)
  end.

(** [func (db *PebbleDB) DeleteMany(domains []string) error] *)
Definition DeleteMany (domains : list string) : M (option error) :=
  pebble.Batch_Commit (DeleteMany_loop domains pebble.NewBatch).

(** [func (db *PebbleDB) Query(domain string) (Entry, error)] *)
Definition Query (domain : string) : M (Entry * option error) :=
  letM '(v, err) := pebble.Get domain in
  match err with
  | Some ErrNotFound => ret (mkEntry domain (time_Unix 0 0), None)
  | Some e => ret (Entry_zero, Some e)
  | None =>
      let (value, err') := JSON.Unmarshal v in
      match err' with
      | Some e => ret (Entry_zero, Some e)
      | None => ret (mkEntry domain (time_Unix (FirstObserved value) 0), None)
      end
  end.

(** The loop of [QueryMany]: [entries] is the slice appended to; the
    first error ends the loop with a nil slice. *)
Fixpoint QueryMany_loop (domains : list string) (entries : list Entry)
  : M (list Entry * option error) :=
  match domains with
  | [] => ret (entries, None)
  | domain :: rest =>
      letM '(entry, err) := Query domain in
      match err with
      | Some e => ret ([], Some e)
      | None => QueryMany_loop rest (entries ++ [entry])
      end
  end.

(** [func (db *PebbleDB) QueryMany(domains []string) ([]Entry, error)] *)
Definition QueryMany (domains : list string) : M (list Entry * option error) :=
  QueryMany_loop domains [].

(** [type NodDB interface]; [Open] and [Close] are left out. *)
Record NodDB : Type := mkNodDB {
  db_Add : Entry -> M (option error);
  db_AddMany : list Entry -> M (option error);
  db_Delete : string -> M (option error);
  db_DeleteMany : list string -> M (option error);
  db_Query : string -> M (Entry * option error);
  db_QueryMany : list string -> M (list Entry * option error)
}.

Definition PebbleDB : NodDB :=
  mkNodDB Add AddMany Delete DeleteMany Query QueryMany.

(** *** Histories of store calls *)

Inductive store_call : Type :=
| CallAdd (entry : Entry)
| CallAddMany (entries : list Entry)
| CallDelete (domain : string)
| CallDeleteMany (domains : list string)
| CallQuery (domain : string)
| CallQueryMany (domains : list string).

Definition exec (c : store_call) (w : World) : World :=
  match c with
  | CallAdd e => snd (Add e w)
  | CallAddMany es => snd (AddMany es w)
  | CallDelete d => snd (Delete d w)
  | CallDeleteMany ds => snd (DeleteMany ds w)
  | CallQuery d => snd (Query d w)
  | CallQueryMany ds => snd (QueryMany ds w)
  end.

Definition exec_all (cs : list store_call) (w : World) : World :=
  fold_left (fun w c => exec c w) cs w.

(** The domains a call asks the store to insert. *)
Definition inserted (c : store_call) : list string :=
  match c with
  | CallAdd e => [Domain e]
  | CallAddMany es => map Domain es
  | _ => []
  end.

(** A store opened on a fresh location. *)
Definition fresh (e : Env) : World := mkWorld ∅ [] 0 e.

(** The engine answers its next call without a failure. *)
Definition healthy (w : World) : Prop :=
  io_fault (env w) (length (log w)) = None.

(** An environment in which nothing ever fails and the clock shows the
    second [t0 + n] at its n-th reading. *)
Definition calm (t0 : Z) : Env :=
  mkEnv (fun _ => None) (fun n => mkTime (t0 + Z.of_nat n) 0).

(** ** package api *)

Module subtle.

(** [func ConstantTimeByteEq(x, y uint8) int]:
    [int((uint32(x^y) - 1) >> 31)] *)
Definition ConstantTimeByteEq (x y : Z) : Z :=
  Z.shiftr ((Z.lxor x y - 1) mod 2 ^ 32) 31.

(** The loop [v |= x[i] ^ y[i]] over two slices of equal length. *)
Fixpoint or_xor (x y : string) (v : Z) : Z :=
  match x, y with
  | String a x', String b y' =>
      or_xor x' y' (Z.lor v (Z.lxor (Z.of_N (N_of_ascii a)) (Z.of_N (N_of_ascii b))))
  | _, _ => v
  end.

(** [func ConstantTimeCompare(x, y []byte) int] *)
Definition ConstantTimeCompare (x y : string) : Z :=
  if negb (Nat.eqb (String.length x) (String.length y)) then 0
  else ConstantTimeByteEq (or_xor x y 0) 0.

End subtle.

(** The fields of [api.Config] that govern authentication. *)
Record Config : Type := mkConfig {
  BasePath : string;
  BasePathAdmin : string;
  AuthMethodAPI : string;
  AuthUsersAPI : gmap string string;
  AuthMethodAdmin : string;
  AuthUsersAdmin : gmap string string
}.

(** [for user, pass := range users { if ... { return true, nil } }]: the
    loop over one realm's credentials. *)
Fixpoint match_any (username password : string) (users : list (string * string)) : bool :=
  match users with
  | [] => false
  | (user, pass) :: rest =>
      if (subtle.ConstantTimeCompare username user =? 1) &&
         (subtle.ConstantTimeCompare password pass =? 1)
      then true
      else match_any username password rest
  end.

(** The validator handed to [middleware.BasicAuth] in [addMiddlewares];
    [path] is [c.Path()]. *)
Definition validator (C : Config) (path username password : string) : bool :=
  if String.prefix (BasePathAdmin C) path then
    if String.eqb (AuthMethodAdmin C) "none" then true
    else match_any username password (map_to_list (AuthUsersAdmin C))
  else if String.prefix (BasePath C) path || String.eqb path EmptyString then
    if String.eqb (AuthMethodAPI C) "none" then true
    else match_any username password (map_to_list (AuthUsersAPI C))
  else false.

(** [api.C.AuthMethodAPI != "none" || api.C.AuthMethodAdmin != "none"] *)
Definition auth_installed (C : Config) : bool :=
  negb (String.eqb (AuthMethodAPI C) "none") ||
  negb (String.eqb (AuthMethodAdmin C) "none").

Inductive auth_outcome : Type := Allow | Reject401.

(** What the request meets before its handler: nothing when the
    middleware is not installed; otherwise Basic credentials are required
    and handed to the validator. *)
Definition authenticate (C : Config) (path : string)
    (credentials : option (string * string)) : auth_outcome :=
  if auth_installed C then
    match credentials with
    | None => Reject401
    | Some (username, password) =>
        if validator C path username password then Allow else Reject401
    end
  else Allow.

(** A realm's method is credential-checked when it is not ["none"]. *)
Definition credential_checked (method : string) : bool :=
  negb (String.eqb method "none").

(** The realm check in the words of the specification: a realm without a
    method lets everyone in, a credential-checked realm lets in the pairs
    of its mapping. *)
Definition realm_admits (method : string) (users : gmap string string)
    (username password : string) : bool :=
  if credential_checked method
  then bool_decide (users !! username = Some password)
  else true.

(** The decision in the words of the specification: the admin realm
    governs the paths under the admin base path, the query realm all
    others. *)
Definition spec_decision (C : Config) (path username password : string) : bool :=
  if String.prefix (BasePathAdmin C) path
  then realm_admits (AuthMethodAdmin C) (AuthUsersAdmin C) username password
  else realm_admits (AuthMethodAPI C) (AuthUsersAPI C) username password.

(** *** Handlers *)

Inductive body : Type :=
| BodyError (msg : string)                      (* {"error": msg} *)
| BodyStatusOk                                  (* {"status": "ok"} *)
| BodyEntry (domain : string) (date : Time).    (* {"domain": ..., "registration_date": ...} *)

Record Response : Type := mkResponse { status : Z; payload : body }.

(** [func (api *API) query(c echo.Context) error]; [domain] is
    [c.Param("domain")]. *)
Definition query (DB : NodDB) (domain : string) : M Response :=
  letM '(entry, err) := db_Query DB domain in
  match err with
  | Some _ => ret (mkResponse 500 (BodyError "internal server error"))
  | None =>
      if String.eqb (Domain entry) EmptyString
      then ret (mkResponse 404 (BodyError "domain not found"))
      else ret (mkResponse 200 (BodyEntry (Domain entry) (RegistrationDate entry)))
  end.

(** [func (api *API) deleteDomain(c echo.Context) error] *)
Definition deleteDomain (DB : NodDB) (domain : string) : M Response :=
  letM err := db_Delete DB domain in
  match err with
  | Some _ => ret (mkResponse 404 (BodyError "domain not found"))
  | None => ret (mkResponse 200 BodyStatusOk)
  end.

(** ** Vocabulary of the proofs *)

(** The key a batch element touches. *)
Definition op_key (o : batch_op) : string :=
  match o with BSet k _ => k | BDelete k => k end.

(** The world after the engine call [o] that changed the content by [f]
    and after [n] further clock readings. *)
Definition moved (w : World) (f : gmap string string -> gmap string string)
    (o : engine_op) (n : nat) : World :=
  mkWorld (f (kv w)) (log w ++ [o]) (ticks w + n) (env w).

(** The outcome of the next engine call as a Go [error]. *)
Definition next_error (w : World) : option error :=
  match io_fault (env w) (length (log w)) with
  | Some f => Some (EngineErr f)
  | None => None
  end.

Definition if_ok (w : World) (f : gmap string string -> gmap string string)
  : gmap string string -> gmap string string :=
  match io_fault (env w) (length (log w)) with
  | Some _ => fun m => m
  | None => f
  end.

(** The batch [AddMany] queues for [entries] when the clock has been read
    [t] times before. *)
Fixpoint AddMany_batch (clock : nat -> Time) (t : nat) (entries : list Entry)
  : pebble.Batch :=
  match entries with
  | [] => []
  | entry :: rest =>
      BSet (Domain entry) (JSON.Marshal (value_of entry (clock t)))
        :: AddMany_batch clock (S t) rest
  end.

(** [Query] reads and changes nothing but the log. *)
Definition queried (w : World) (domains : list string) : World :=
  mkWorld (kv w) (log w ++ map EGet domains) (ticks w) (env w).

(** The answers of one [Query] per domain, asked one after the other. *)
Fixpoint answers (w : World) (domains : list string) : list Entry :=
  match domains with
  | [] => []
  | domain :: rest =>
      fst (fst (Query domain w)) :: answers (snd (Query domain w)) rest
  end.

(** The position and the error of the first [Query] of the sequence that
    fails, if one does. *)
Fixpoint first_error (w : World) (domains : list string) : option (nat * error) :=
  match domains with
  | [] => None
  | domain :: rest =>
      match snd (fst (Query domain w)) with
      | Some e => Some (O, e)
      | None =>
          match first_error (snd (Query domain w)) rest with
          | Some (i, e) => Some (S i, e)
          | None => None
          end
      end
  end.

Definition evil : Entry := mkEntry "evil.example" (mkTime 1704067200 500000000).
Definition older : Entry := mkEntry "evil.example" (mkTime 1600000000 0).
Definition other : Entry := mkEntry "other.example" (mkTime 1650000000 0).

Definition some_history : list store_call :=
  [CallAdd evil; CallDelete "gone.example"; CallAddMany [other; older];
   CallQuery "never-seen.example"; CallDeleteMany ["other.example"]].

(** The defaults of the configuration file, with the query realm
    credential-checked too and one user per realm. *)
Definition two_realms : Config :=
  mkConfig "/" "/admin"
    "plain" {[ "reader" := "read-secret" ]}
    "plain" {[ "operator" := "admin-secret" ]}.

(** *** The remaining handlers and the routes *)

(** The body of a [query_many] answer: an error object or the entries. *)
Inductive many_body : Type :=
| ManyError (msg : string)                      (* {"error": msg} *)
| ManyMessage (msg : string)                    (* {"message": msg} *)
| ManyEntries (entries : list Entry).           (* the array of entries *)

Record ManyResponse : Type :=
  mkManyResponse { many_status : Z; many_payload : many_body }.

(** [func (api *API) queryMany(c echo.Context) error]; [bound] is what
    [c.Bind(&domains)] produced, [None] when it returned an error.

    [json_ok entries] tells whether [c.JSON(200, entries)] can encode the
    entries: the encoder refuses a [time.Time] that has no RFC 3339 form
    (a year outside 0..9999 in the time's location) and then writes
    nothing.  The handler returns that error, and the server's error
    handler answers 500 with its own body. *)
Definition queryMany (DB : NodDB) (json_ok : list Entry -> bool)
    (bound : option (list string)) : M ManyResponse :=
  match bound with
  | None => ret (mkManyResponse 400 (ManyError "bad request"))
  | Some domains =>
      letM '(entries, err) := db_QueryMany DB domains in
      match err with
      | Some _ => ret (mkManyResponse 500 (ManyError "internal server error"))
      | None =>
          if json_ok entries
          then ret (mkManyResponse 200 (ManyEntries entries))
          else ret (mkManyResponse 500 (ManyMessage "Internal Server Error"))
      end
  end.

(** [func (api *API) addDomain(c echo.Context) error] *)
Definition addDomain (DB : NodDB) (bound : option Entry) : M Response :=
  match bound with
  | None => ret (mkResponse 400 (BodyError "bad request"))
  | Some entry =>
      letM err := db_Add DB entry in
      match err with
      | Some _ => ret (mkResponse 409 (BodyError "insert failed"))
      | None => ret (mkResponse 200 BodyStatusOk)
      end
  end.

(** [func (api *API) addDomains(c echo.Context) error] *)
Definition addDomains (DB : NodDB) (bound : option (list Entry)) : M Response :=
  match bound with
  | None => ret (mkResponse 400 (BodyError "bad request"))
  | Some entries =>
      letM err := db_AddMany DB entries in
      match err with
      | Some _ => ret (mkResponse 409 (BodyError "insert failed"))
      | None => ret (mkResponse 200 BodyStatusOk)
      end
  end.

(** [func (api *API) deleteDomains(c echo.Context) error] *)
Definition deleteDomains (DB : NodDB) (bound : option (list string)) : M Response :=
  match bound with
  | None => ret (mkResponse 400 (BodyError "bad request"))
  | Some domains =>
      letM err := db_DeleteMany DB domains in
      match err with
      | Some _ => ret (mkResponse 404 (BodyError "domain not found"))
      | None => ret (mkResponse 200 BodyStatusOk)
      end
  end.

Inductive http_method : Type := GET | POST | DELETE.

(** The routes [AddQueryPaths] registers: method and path pattern. *)
Definition AddQueryPaths (C : Config) : list (http_method * string) :=
  [ (GET, BasePath C +:+ "query/:domain");
    (GET, BasePath C +:+ "query_many") ].

(** The routes [AddAdminPaths] registers. *)
Definition AddAdminPaths (C : Config) : list (http_method * string) :=
  [ (POST, BasePathAdmin C +:+ "/add_domain");
    (POST, BasePathAdmin C +:+ "/add_domains");
    (DELETE, BasePathAdmin C +:+ "/delete_domain/:domain");
    (DELETE, BasePathAdmin C +:+ "/delete_domains") ].

(** The router's [normalizePathSlash]: a pattern is stored, and reported
    by [c.Path()], with a slash in front when it has none. *)
Definition normalizePathSlash (path : string) : string :=
  match path with
  | EmptyString => "/"
  | String c _ => if Ascii.eqb c "/" then path else String "/" path
  end.

(** The values [c.Path()] takes: the stored pattern of a registered route,
    or the empty string when no route matched. *)
Definition route_path (C : Config) (path : string) : Prop :=
  In path (map (fun r => normalizePathSlash (snd r))
             (AddQueryPaths C ++ AddAdminPaths C)) \/
  path = EmptyString.

(** A base path that is empty or starts with a slash. *)
Definition rooted (base : string) : bool :=
  match base with
  | EmptyString => true
  | String c _ => Ascii.eqb c "/"
  end.

(** Every value of the content is a record as [Add] and [AddMany] write
    it. *)
Definition written_by_store (m : gmap string string) : Prop :=
  forall k v, m !! k = Some v ->
    exists value, Value_valid value /\ v = JSON.Marshal value.

(** The entries added one after the other. *)
Definition add_each (entries : list Entry) (w : World) : World :=
  exec_all (map CallAdd entries) w.

(** The domains deleted one after the other. *)
Definition delete_each (domains : list string) (w : World) : World :=
  exec_all (map CallDelete domains) w.

(** The engine serves its next [n] calls without a failure. *)
Definition healthy_for (n : nat) (w : World) : Prop :=
  forall i, (i < n)%nat -> io_fault (env w) (length (log w) + i) = None.

(** An environment in which every engine call fails. *)
Definition broken : Env := mkEnv (fun _ => Some FaultClosed) (fun _ => epoch).

(** A configuration whose admin base path is a prefix of the query base
    path. *)
Definition nested_bases : Config :=
  mkConfig "/" "/"
    "plain" {[ "reader" := "read-secret" ]}
    "plain" {[ "operator" := "admin-secret" ]}.

(** The defaults of the configuration file as shipped: an open query
    realm, a credential-checked admin realm. *)
Definition shipped : Config :=
  mkConfig "/" "/admin"
    "none" {[ "username1" := "password1"; "username2" := "password2" ]}
    "plain" {[ "username1" := "password1"; "username2" := "password2" ]}.

(** * Properties *)

(** ** Machine integers and time *)

Lemma in_rangeb_true (z : Z) : Int64.in_range z -> Int64.in_rangeb z = true.
Proof.
  unfold Int64.in_range, Int64.in_rangeb. intros [H1 H2].
  apply andb_true_intro. split; apply Z.leb_le; assumption.
Qed.

Lemma wrap_in_range (z : Z) : Int64.in_range (Int64.wrap z).
Proof.
  unfold Int64.in_range, Int64.wrap, Int64.min_int, Int64.max_int.
  pose proof (Z.mod_pos_bound (z + 2 ^ 63) (2 ^ 64) ltac:(lia)). lia.
Qed.

Lemma wrap_id (z : Z) : Int64.in_range z -> Int64.wrap z = z.
Proof.
  unfold Int64.in_range, Int64.wrap, Int64.min_int, Int64.max_int. intros H.
  rewrite Z.mod_small; lia.
Qed.

Lemma time_Unix_whole (s : Z) : time_Unix s 0 = mkTime s 0.
Proof. reflexivity. Qed.

Lemma value_of_valid (entry : Entry) (now : Time) : Value_valid (value_of entry now).
Proof. split; apply wrap_in_range. Qed.

(** ** The JSON codec *)

Module JSONFacts.
Import JSON.
Local Open Scope N_scope.

Lemma run_app (a b : string) : forall st, run st (a +:+ b) = run (run st a) b.
Proof. induction a as [|c a IH]; intros st; simpl; [reflexivity | apply IH]. Qed.

Lemma run_cons (c : ascii) (s : string) st :
  run st (String c s) = run (step st c) s.
Proof. reflexivity. Qed.

Lemma run_fail (s : string) : run JFail s = JFail.
Proof. induction s; simpl; auto. Qed.

Lemma formatBits_app (fuel : nat) :
  forall us acc rest,
    formatBits fuel us acc +:+ rest = formatBits fuel us (acc +:+ rest).
Proof.
  induction fuel as [|fuel IH]; intros us acc rest; simpl; [reflexivity|].
  destruct (10 <=? us); [rewrite IH|]; reflexivity.
Qed.

Lemma digit_enum (d : N) :
  d < 10 ->
  d = 0 \/ d = 1 \/ d = 2 \/ d = 3 \/ d = 4 \/ d = 5 \/ d = 6 \/ d = 7 \/ d = 8 \/ d = 9.
Proof. lia. Qed.

Ltac each_digit d H :=
  destruct (digit_enum d H) as [->|[->|[->|[->|[->|[->|[->|[->|[->| ->]]]]]]]]].

Lemma digit_char_is_digit (d : N) : d < 10 -> is_digit (digit_char d) = true.
Proof. intros H. each_digit d H; reflexivity. Qed.

Lemma digit_char_val (d : N) : d < 10 -> digit_val (digit_char d) = d.
Proof. intros H. each_digit d H; reflexivity. Qed.

Lemma step_JVal_digit v k (d : N) :
  1 <= d -> d < 10 -> step (JVal v k) (digit_char d) = JNum v k false d.
Proof. intros H1 H. each_digit d H; try reflexivity; lia. Qed.

Lemma step_JNeg_digit v k (d : N) :
  1 <= d -> d < 10 -> step (JNeg v k) (digit_char d) = JNum v k true d.
Proof. intros H1 H. each_digit d H; try reflexivity; lia. Qed.

Lemma step_JNum_digit v k neg n (d : N) :
  d < 10 -> step (JNum v k neg n) (digit_char d) = JNum v k neg (10 * n + d).
Proof.
  intros H. unfold step. rewrite digit_char_is_digit, digit_char_val by assumption.
  reflexivity.
Qed.

(** Reading back what [formatBits] wrote: the scanner ends inside the
    number, holding its value. *)
Lemma run_formatBits st v k neg :
  (forall d, 1 <= d -> d < 10 -> step st (digit_char d) = JNum v k neg d) ->
  forall fuel us acc,
    0 < us -> us < 10 ^ N.of_nat fuel ->
    run st (formatBits fuel us acc) = run (JNum v k neg us) acc.
Proof.
  intros Hst. induction fuel as [|fuel IH]; intros us acc Hpos Hlt.
  - simpl in Hlt. lia.
  - rewrite Nat2N.inj_succ, N.pow_succ_r' in Hlt. simpl.
    destruct (N.leb_spec 10 us) as [Hge|Hsmall].
    + pose proof (N.div_mod us 10 ltac:(lia)) as Hdm.
      pose proof (N.mod_lt us 10 ltac:(lia)) as Hm.
      rewrite IH.
      * rewrite run_cons, step_JNum_digit by assumption.
        replace (10 * (us / 10) + us mod 10) with us by lia. reflexivity.
      * apply N.div_str_pos. lia.
      * apply N.Div0.div_lt_upper_bound. lia.
    + rewrite run_cons, Hst by lia. reflexivity.
Qed.

Lemma run_FormatInt (z : Z) :
  Int64.in_range z ->
  forall v k c rest,
    is_digit c = false ->
    run (JVal v k) (FormatInt z +:+ String c rest) =
    run (close_value (store v k z) c) rest.
Proof.
  unfold Int64.in_range, Int64.min_int, Int64.max_int.
  intros Hz v k c rest Hc. unfold FormatInt.
  destruct (Z.ltb_spec z 0) as [Hneg|Hnn].
  - change (String "-" ?s +:+ ?r) with (String "-" (s +:+ r)).
    rewrite formatBits_app, run_cons.
    change (step (JVal v k) "-") with (JNeg v k).
    change (EmptyString +:+ String c rest) with (String c rest).
    rewrite (run_formatBits (JNeg v k) v k true (step_JNeg_digit v k)).
    + rewrite run_cons. cbn [step]. rewrite Hc. unfold signed. rewrite Z2N.id by lia.
      replace (- - z)%Z with z by lia. reflexivity.
    + lia.
    + change (10 ^ N.of_nat 20) with 100000000000000000000. lia.
  - destruct (Z.eq_dec z 0%Z) as [->|Hnz].
    + reflexivity.
    + rewrite formatBits_app.
      change (EmptyString +:+ String c rest) with (String c rest).
      rewrite (run_formatBits (JVal v k) v k false (step_JVal_digit v k)).
      * rewrite run_cons. cbn [step]. rewrite Hc. unfold signed. rewrite Z2N.id by lia. reflexivity.
      * lia.
      * change (10 ^ N.of_nat 20) with 100000000000000000000. lia.
Qed.

(** Decoding what [Marshal] wrote gives the value back. *)
Lemma Unmarshal_Marshal (v : Value) :
  Value_valid v -> Unmarshal (Marshal v) = (v, None).
Proof.
  intros [H1 H2]. destruct v as [a b]; simpl in H1, H2.
  unfold Unmarshal, Marshal; simpl FirstObserved; simpl TimeAdded.
  rewrite run_app.
  change (run JStart (String "{" (quoted "first_observed" +:+ ":")))
    with (JVal Value_zero "first_observed").
  change (String "," (quoted "now" +:+ ":") +:+ (FormatInt b +:+ "}"))
    with (String "," ((quoted "now" +:+ ":") +:+ (FormatInt b +:+ "}"))).
  rewrite run_FormatInt by (assumption || reflexivity).
  unfold store at 1.
  change (field_of_key "first_observed") with (Some FFirstObserved).
  rewrite (in_rangeb_true a H1).
  change (close_value (Some (mkValue a (TimeAdded Value_zero))) ",")
    with (JComma (mkValue a 0)).
  rewrite run_app.
  change (run (JComma (mkValue a 0)) (quoted "now" +:+ ":"))
    with (JVal (mkValue a 0) "now").
  rewrite run_FormatInt by (assumption || reflexivity).
  unfold store.
  change (field_of_key "now") with (Some FTimeAdded).
  rewrite (in_rangeb_true b H2). reflexivity.
Qed.

End JSONFacts.

(** ** The engine *)

Lemma apply_batch_app (b1 b2 : pebble.Batch) (m : gmap string string) :
  pebble.apply_batch (b1 ++ b2) m = pebble.apply_batch b2 (pebble.apply_batch b1 m).
Proof. apply fold_left_app. Qed.

(** A batch leaves alone the keys it does not name. *)
Lemma apply_batch_other (b : pebble.Batch) (d : string) :
  forall m : gmap string string,
    Forall (fun o => op_key o <> d) b ->
    pebble.apply_batch b m !! d = m !! d.
Proof.
  induction b as [|o b IH]; intros m Hb; [reflexivity|].
  inversion Hb as [|? ? Ho Hb']; subst. simpl.
  change (fold_left pebble.apply_op b (pebble.apply_op m o))
    with (pebble.apply_batch b (pebble.apply_op m o)).
  rewrite IH by assumption.
  destruct o as [k v|k]; simpl in *.
  - apply lookup_insert_ne. assumption.
  - apply lookup_delete_ne. assumption.
Qed.

(** The last element that names a key decides what the key holds. *)
Lemma apply_batch_last_set (b1 b2 : pebble.Batch) (d v : string) (m : gmap string string) :
  Forall (fun o => op_key o <> d) b2 ->
  pebble.apply_batch (b1 ++ BSet d v :: b2) m !! d = Some v.
Proof.
  intros Hb2. rewrite apply_batch_app. simpl.
  change (fold_left pebble.apply_op b2 ?x) with (pebble.apply_batch b2 x).
  rewrite apply_batch_other by assumption.
  apply lookup_insert_eq.
Qed.

Lemma apply_batch_last_delete (b1 b2 : pebble.Batch) (d : string) (m : gmap string string) :
  Forall (fun o => op_key o <> d) b2 ->
  pebble.apply_batch (b1 ++ BDelete d :: b2) m !! d = None.
Proof.
  intros Hb2. rewrite apply_batch_app. simpl.
  change (fold_left pebble.apply_op b2 ?x) with (pebble.apply_batch b2 x).
  rewrite apply_batch_other by assumption.
  apply lookup_delete_eq.
Qed.

(** ** The store operations, one world to the next *)

Lemma healthy_next_error (w : World) : healthy w <-> next_error w = None.
Proof.
  unfold healthy, next_error. destruct (io_fault _ _); split; congruence.
Qed.

Lemma Add_eq (entry : Entry) (w : World) :
  let j := JSON.Marshal (value_of entry (wall_clock (env w) (ticks w))) in
  Add entry w =
  (next_error w, moved w (if_ok w (insert (Domain entry) j)) (ESet (Domain entry) j) 1).
Proof.
  unfold Add, bind, time_Now, pebble.Set_, pebble.call, pebble.write, ret,
    next_error, if_ok, moved, bind. simpl.
  rewrite Nat.add_1_r.
  destruct (io_fault (env w) (length (log w))); reflexivity.
Qed.

Lemma AddMany_loop_eq (entries : list Entry) :
  forall (batch : pebble.Batch) (w : World),
    AddMany_loop entries batch w =
    (batch ++ AddMany_batch (wall_clock (env w)) (ticks w) entries,
     mkWorld (kv w) (log w) (ticks w + length entries) (env w)).
Proof.
  induction entries as [|entry rest IH]; intros batch w.
  - simpl. unfold ret. rewrite app_nil_r, Nat.add_0_r. destruct w; reflexivity.
  - simpl. unfold bind, time_Now. rewrite IH. simpl.
    unfold pebble.Batch_Set. rewrite <- app_assoc. simpl.
    rewrite Nat.add_succ_r. reflexivity.
Qed.

Lemma AddMany_eq (entries : list Entry) (w : World) :
  let b := AddMany_batch (wall_clock (env w)) (ticks w) entries in
  AddMany entries w =
  (next_error w, moved w (if_ok w (pebble.apply_batch b)) (ECommit b) (length entries)).
Proof.
  unfold AddMany, bind. rewrite AddMany_loop_eq. simpl.
  unfold pebble.Batch_Commit, pebble.call, pebble.write, ret, next_error,
    if_ok, moved, bind. simpl.
  destruct (io_fault (env w) (length (log w))); reflexivity.
Qed.

Lemma Delete_eq (domain : string) (w : World) :
  Delete domain w =
  (next_error w, moved w (if_ok w (delete domain)) (EDelete domain) 0).
Proof.
  unfold Delete, pebble.Delete, pebble.call, pebble.write, ret, next_error,
    if_ok, moved, bind. simpl. rewrite Nat.add_0_r.
  destruct (io_fault (env w) (length (log w))); reflexivity.
Qed.

Lemma DeleteMany_loop_eq (domains : list string) :
  forall batch : pebble.Batch,
    DeleteMany_loop domains batch = batch ++ map BDelete domains.
Proof.
  induction domains as [|d rest IH]; intros batch; simpl.
  - symmetry. apply app_nil_r.
  - rewrite IH. unfold pebble.Batch_Delete. rewrite <- app_assoc. reflexivity.
Qed.

Lemma DeleteMany_eq (domains : list string) (w : World) :
  let b := map BDelete domains in
  DeleteMany domains w =
  (next_error w, moved w (if_ok w (pebble.apply_batch b)) (ECommit b) 0).
Proof.
  unfold DeleteMany. rewrite DeleteMany_loop_eq. simpl.
  unfold pebble.Batch_Commit, pebble.call, pebble.write, ret, next_error,
    if_ok, moved, bind. simpl. rewrite Nat.add_0_r.
  destruct (io_fault (env w) (length (log w))); reflexivity.
Qed.

Lemma Get_eq (key : string) (w : World) :
  pebble.Get key w =
  (match io_fault (env w) (length (log w)) with
   | Some f => (EmptyString, Some (EngineErr f))
   | None =>
       match kv w !! key with
       | Some v => (v, None)
       | None => (EmptyString, Some ErrNotFound)
       end
   end, queried w [key]).
Proof.
  unfold pebble.Get, pebble.call, pebble.read, ret, bind, queried. cbn.
  destruct (io_fault (env w) (length (log w))); [reflexivity|]. cbn.
  destruct (kv w !! key); reflexivity.
Qed.

Ltac open_Query :=
  unfold Query, bind; rewrite Get_eq; unfold ret.

Lemma Query_world (domain : string) (w : World) :
  snd (Query domain w) = queried w [domain].
Proof.
  open_Query.
  destruct (io_fault (env w) (length (log w))); [reflexivity|].
  destruct (kv w !! domain) as [v|]; [|reflexivity].
  destruct (JSON.Unmarshal v) as [value [e|]]; reflexivity.
Qed.

Lemma Query_fault (domain : string) (w : World) (f : fault) :
  io_fault (env w) (length (log w)) = Some f ->
  fst (Query domain w) = (Entry_zero, Some (EngineErr f)).
Proof. intros H. open_Query. rewrite H. reflexivity. Qed.

Lemma Query_absent (domain : string) (w : World) :
  healthy w -> kv w !! domain = None ->
  fst (Query domain w) = (mkEntry domain epoch, None).
Proof.
  unfold healthy. intros H Hk. open_Query. rewrite H, Hk. reflexivity.
Qed.

Lemma Query_present (domain : string) (w : World) (v : Value) :
  healthy w -> kv w !! domain = Some (JSON.Marshal v) -> Value_valid v ->
  fst (Query domain w) = (mkEntry domain (mkTime (FirstObserved v) 0), None).
Proof.
  unfold healthy. intros H Hk Hv. open_Query. rewrite H, Hk.
  rewrite (JSONFacts.Unmarshal_Marshal v Hv). reflexivity.
Qed.

(** Whatever the store holds and whatever the engine does, [Query]
    either fails with the zero entry or answers for the domain asked. *)
Lemma Query_cases (domain : string) (w : World) :
  (exists e, fst (Query domain w) = (Entry_zero, Some e) /\ e <> ErrNotFound) \/
  (exists t, fst (Query domain w) = (mkEntry domain t, None)).
Proof.
  open_Query.
  destruct (io_fault (env w) (length (log w))) as [f|].
  - left. exists (EngineErr f). split; [reflexivity | discriminate].
  - destruct (kv w !! domain) as [v|].
    + unfold JSON.Unmarshal.
      destruct (JSON.run JSON.JStart v);
        try (left; exists JSONErr; split; [reflexivity | discriminate]).
      right. eexists. reflexivity.
    + right. eexists. reflexivity.
Qed.

Lemma queried_queried (w : World) (l1 l2 : list string) :
  queried (queried w l1) l2 = queried w (l1 ++ l2).
Proof. unfold queried. simpl. rewrite map_app, app_assoc. reflexivity. Qed.

Lemma queried_nil (w : World) : queried w [] = w.
Proof. unfold queried. simpl. rewrite app_nil_r. destruct w; reflexivity. Qed.

(** ** QueryMany *)

Lemma QueryMany_loop_eq (domains : list string) :
  forall (acc : list Entry) (w : World),
    QueryMany_loop domains acc w =
    match first_error w domains with
    | None => (acc ++ answers w domains, None, queried w domains)
    | Some (i, e) => ([], Some e, queried w (take (S i) domains))
    end.
Proof.
  induction domains as [|d rest IH]; intros acc w.
  - simpl. unfold ret. rewrite app_nil_r, queried_nil. reflexivity.
  - simpl. unfold bind.
    pose proof (Query_world d w) as Hw.
    destruct (Query d w) as [[entry err] w1]. simpl in Hw. subst w1. simpl.
    destruct err as [e|].
    + reflexivity.
    + rewrite IH. destruct (first_error (queried w [d]) rest) as [[i e]|].
      * rewrite queried_queried. reflexivity.
      * rewrite queried_queried, <- app_assoc. reflexivity.
Qed.

Lemma answers_length (domains : list string) :
  forall w, length (answers w domains) = length domains.
Proof. induction domains as [|d rest IH]; intros w; simpl; [|rewrite IH]; reflexivity. Qed.

Lemma first_error_bound (domains : list string) :
  forall w i e, first_error w domains = Some (i, e) -> (i < length domains)%nat.
Proof.
  induction domains as [|d rest IH]; intros w i e H; simpl in *; [discriminate|].
  destruct (snd (fst (Query d w))).
  - inversion H; subst. lia.
  - destruct (first_error (snd (Query d w)) rest) as [[j e']|] eqn:Hr; [|discriminate].
    inversion H; subst. apply IH in Hr. lia.
Qed.

Lemma answers_domains (domains : list string) :
  forall w, first_error w domains = None ->
            map Domain (answers w domains) = domains.
Proof.
  induction domains as [|d rest IH]; intros w H; simpl in *; [reflexivity|].
  destruct (Query_cases d w) as [[e [Hq _]]|[t Hq]]; rewrite Hq in *; simpl in *.
  - discriminate.
  - destruct (first_error (snd (Query d w)) rest) as [[j e']|] eqn:Hr; [discriminate|].
    rewrite IH by assumption. reflexivity.
Qed.

(** ** Histories *)

Lemma if_ok_absent (w : World) (f : gmap string string -> gmap string string) (d : string) :
  (forall m : gmap string string, m !! d = None -> f m !! d = None) ->
  kv w !! d = None -> if_ok w f (kv w) !! d = None.
Proof.
  intros Hf Hk. unfold if_ok. destruct (io_fault _ _); [assumption | apply Hf, Hk].
Qed.

Lemma AddMany_batch_keys (clock : nat -> Time) (entries : list Entry) :
  forall t, map op_key (AddMany_batch clock t entries) = map Domain entries.
Proof.
  induction entries as [|e rest IH]; intros t; simpl; [|rewrite IH]; reflexivity.
Qed.

Lemma keys_avoid (b : pebble.Batch) (d : string) :
  ~ In d (map op_key b) -> Forall (fun o => op_key o <> d) b.
Proof.
  intros H. apply List.Forall_forall. intros o Ho Heq. apply H.
  rewrite <- Heq. apply in_map. assumption.
Qed.

Lemma apply_deletes_absent (domains : list string) (d : string) :
  forall m : gmap string string,
    m !! d = None -> pebble.apply_batch (map BDelete domains) m !! d = None.
Proof.
  induction domains as [|k rest IH]; intros m Hm; [assumption|].
  simpl. apply IH. destruct (decide (k = d)) as [->|Hne].
  - apply lookup_delete_eq.
  - rewrite lookup_delete_ne; assumption.
Qed.

Lemma QueryMany_world (domains : list string) (w : World) :
  kv (snd (QueryMany domains w)) = kv w.
Proof.
  unfold QueryMany. rewrite QueryMany_loop_eq.
  destruct (first_error w domains) as [[i e]|]; reflexivity.
Qed.

(** A call keeps a key absent unless it inserts it. *)
Lemma exec_absent (c : store_call) (w : World) (d : string) :
  ~ In d (inserted c) -> kv w !! d = None -> kv (exec c w) !! d = None.
Proof.
  intros Hin Hk. destruct c as [e|es|k|ks|k|ks]; simpl in *.
  - rewrite Add_eq. simpl. apply if_ok_absent; [|assumption].
    intros m Hm. rewrite lookup_insert_ne; [assumption | tauto].
  - rewrite AddMany_eq. simpl. apply if_ok_absent; [|assumption].
    intros m Hm. rewrite apply_batch_other; [assumption|].
    apply keys_avoid. rewrite AddMany_batch_keys. assumption.
  - rewrite Delete_eq. simpl. apply if_ok_absent; [|assumption].
    intros m Hm. destruct (decide (k = d)) as [->|Hne].
    + apply lookup_delete_eq.
    + rewrite lookup_delete_ne; assumption.
  - rewrite DeleteMany_eq. simpl. apply if_ok_absent; [|assumption].
    intros m Hm. apply apply_deletes_absent. assumption.
  - rewrite Query_world. assumption.
  - rewrite QueryMany_world. assumption.
Qed.

Lemma exec_all_absent (history : list store_call) (d : string) :
  forall w,
    ~ In d (concat (map inserted history)) ->
    kv w !! d = None -> kv (exec_all history w) !! d = None.
Proof.
  induction history as [|c rest IH]; intros w Hin Hk; [assumption|].
  simpl in *. rewrite in_app_iff in Hin.
  apply IH; [tauto|]. apply exec_absent; [tauto | assumption].
Qed.

(** ** Query and Add *)

(** C1.  A domain that no call of the history inserted is answered, on a
    store opened fresh, with the entry of that domain dated at the Unix
    epoch and no error, whenever the engine serves the read; and whatever
    the engine does, the only error [Query] can return there is the
    engine's own failure, never "not found". *)
Theorem C1_query_never_inserted
    (e : Env) (history : list store_call) (domain : string) :
  ~ In domain (concat (map inserted history)) ->
  let w := exec_all history (fresh e) in
  (healthy w -> fst (Query domain w) = (mkEntry domain epoch, None)) /\
  (forall err, snd (fst (Query domain w)) = Some err ->
     exists f, io_fault (env w) (length (log w)) = Some f /\ err = EngineErr f).
Proof.
  intros Hin w.
  assert (Hk : kv w !! domain = None).
  { apply exec_all_absent; [assumption | reflexivity]. }
  split.
  - intros Hh. apply Query_absent; assumption.
  - intros err Herr.
    destruct (io_fault (env w) (length (log w))) as [f|] eqn:Hio.
    + rewrite (Query_fault domain w f Hio) in Herr. simpl in Herr.
      exists f. split; [reflexivity | congruence].
    + rewrite (Query_absent domain w Hio Hk) in Herr. discriminate.
Qed.

Lemma Add_stored (entry : Entry) (w : World) :
  fst (Add entry w) = None ->
  kv (snd (Add entry w)) !! Domain entry =
  Some (JSON.Marshal (value_of entry (wall_clock (env w) (ticks w)))).
Proof.
  rewrite Add_eq. simpl. unfold next_error, if_ok.
  destruct (io_fault (env w) (length (log w))); [discriminate|].
  intros _. apply lookup_insert_eq.
Qed.

(** C2.  After a successful [Add] of an entry with a representable date,
    [Query] on its domain returns the date cut to whole seconds. *)
Theorem C2_add_query_roundtrip (entry : Entry) (w w2 : World) :
  Time_valid (RegistrationDate entry) ->
  fst (Add entry w) = None ->
  kv w2 = kv (snd (Add entry w)) ->
  healthy w2 ->
  fst (Query (Domain entry) w2) =
  (mkEntry (Domain entry) (Time_Truncate_Second (RegistrationDate entry)), None).
Proof.
  intros [Hs _] Hadd Hkv Hh.
  pose proof (Add_stored entry w Hadd) as Hst. rewrite <- Hkv in Hst.
  rewrite (Query_present _ _ _ Hh Hst (value_of_valid _ _)).
  unfold value_of, Time_Truncate_Second, Time_Unix. simpl.
  rewrite wrap_id by assumption. reflexivity.
Qed.

(** C10.  An entry stored with the epoch as its date is answered exactly
    as a domain that was never inserted. *)
Theorem C10_epoch_entry_is_sentinel
    (domain : string) (w : World) (e : Env) (history : list store_call) :
  fst (Add (mkEntry domain epoch) w) = None ->
  healthy (snd (Add (mkEntry domain epoch) w)) ->
  ~ In domain (concat (map inserted history)) ->
  healthy (exec_all history (fresh e)) ->
  fst (Query domain (snd (Add (mkEntry domain epoch) w))) =
  fst (Query domain (exec_all history (fresh e))).
Proof.
  intros Hadd Hh Hin Hh0.
  rewrite (Query_absent domain (exec_all history (fresh e)) Hh0)
    by (apply exec_all_absent; [assumption | reflexivity]).
  pose proof (Add_stored _ w Hadd) as Hst. simpl in Hst.
  rewrite (Query_present domain _ _ Hh Hst (value_of_valid _ _)). reflexivity.
Qed.

(** ** Last write wins *)

Lemma AddMany_batch_app (clock : nat -> Time) (l1 l2 : list Entry) :
  forall t,
    AddMany_batch clock t (l1 ++ l2) =
    AddMany_batch clock t l1 ++ AddMany_batch clock (t + length l1) l2.
Proof.
  induction l1 as [|e l1 IH]; intros t; simpl.
  - rewrite Nat.add_0_r. reflexivity.
  - rewrite IH, Nat.add_succ_r. reflexivity.
Qed.

Lemma AddMany_stored (before after : list Entry) (entry : Entry) (w : World) :
  fst (AddMany (before ++ entry :: after) w) = None ->
  ~ In (Domain entry) (map Domain after) ->
  kv (snd (AddMany (before ++ entry :: after) w)) !! Domain entry =
  Some (JSON.Marshal
          (value_of entry (wall_clock (env w) (ticks w + length before)))).
Proof.
  rewrite AddMany_eq. simpl. unfold next_error, if_ok.
  destruct (io_fault (env w) (length (log w))); [discriminate|].
  intros _ Hafter. rewrite AddMany_batch_app. simpl.
  apply apply_batch_last_set, keys_avoid.
  rewrite AddMany_batch_keys. assumption.
Qed.

(** C9.  Whatever the store held for the domain, a successful [Add]
    leaves the record built from this call's date and this call's clock
    reading; a successful [AddMany] leaves, for a domain, the record built
    from its last entry in the batch and that entry's clock reading. *)
Theorem C9_last_write_wins
    (w : World) (entry : Entry) (before after : list Entry) :
  healthy w ->
  ~ In (Domain entry) (map Domain after) ->
  let now1 := wall_clock (env w) (ticks w) in
  let nowN := wall_clock (env w) (ticks w + length before) in
  (fst (Add entry w) = None /\
   kv (snd (Add entry w)) !! Domain entry =
     Some (JSON.Marshal (value_of entry now1)) /\
   JSON.Unmarshal (JSON.Marshal (value_of entry now1)) =
     (mkValue (Time_Unix (RegistrationDate entry)) (Time_Unix now1), None)) /\
  (fst (AddMany (before ++ entry :: after) w) = None /\
   kv (snd (AddMany (before ++ entry :: after) w)) !! Domain entry =
     Some (JSON.Marshal (value_of entry nowN)) /\
   JSON.Unmarshal (JSON.Marshal (value_of entry nowN)) =
     (mkValue (Time_Unix (RegistrationDate entry)) (Time_Unix nowN), None)).
Proof.
  intros Hh Hafter now1 nowN. apply healthy_next_error in Hh.
  assert (Ha : fst (Add entry w) = None) by (rewrite Add_eq; exact Hh).
  assert (Hm : fst (AddMany (before ++ entry :: after) w) = None)
    by (rewrite AddMany_eq; exact Hh).
  repeat split; try assumption.
  - apply Add_stored. assumption.
  - apply (JSONFacts.Unmarshal_Marshal _ (value_of_valid entry now1)).
  - apply AddMany_stored; assumption.
  - apply (JSONFacts.Unmarshal_Marshal _ (value_of_valid entry nowN)).
Qed.

(** ** Batches *)

Lemma last_occurrence (d : string) (entries : list Entry) :
  In d (map Domain entries) ->
  exists before last after,
    entries = before ++ last :: after /\ Domain last = d /\
    ~ In d (map Domain after).
Proof.
  induction entries as [|e rest IH]; intros Hin; [destruct Hin|].
  destruct (in_dec string_dec d (map Domain rest)) as [Hrest|Hrest].
  - destruct (IH Hrest) as (before & last & after & -> & Hd & Hafter).
    exists (e :: before), last, after. repeat split; assumption.
  - destruct Hin as [Hd|Hin]; [|contradiction].
    exists [], e, rest. repeat split; assumption.
Qed.

(** C3.  A batch is applied whole or not at all.  When [AddMany] returns
    no error, every domain of the batch is found by later queries, with
    the date of an entry of the batch for that domain, and the domains
    outside the batch hold what they held; when it returns an error, the
    content is what it was.  When [DeleteMany] returns no error, every
    domain of the batch is absent for later queries and the other domains
    hold what they held; when it returns an error, the content is what it
    was. *)
Theorem C3_batches_atomic
    (w : World) (entries : list Entry) (domains : list string) :
  match fst (AddMany entries w) with
  | None =>
      (forall entry, In entry entries ->
         exists last, In last entries /\ Domain last = Domain entry /\
           forall w2, kv w2 = kv (snd (AddMany entries w)) -> healthy w2 ->
             fst (Query (Domain entry) w2) =
             (mkEntry (Domain entry)
                (mkTime (Time_Unix (RegistrationDate last)) 0), None)) /\
      (forall d, ~ In d (map Domain entries) ->
         kv (snd (AddMany entries w)) !! d = kv w !! d)
  | Some _ => kv (snd (AddMany entries w)) = kv w
  end /\
  match fst (DeleteMany domains w) with
  | None =>
      (forall d, In d domains ->
         kv (snd (DeleteMany domains w)) !! d = None /\
         forall w2, kv w2 = kv (snd (DeleteMany domains w)) -> healthy w2 ->
           fst (Query d w2) = (mkEntry d epoch, None)) /\
      (forall d, ~ In d domains ->
         kv (snd (DeleteMany domains w)) !! d = kv w !! d)
  | Some _ => kv (snd (DeleteMany domains w)) = kv w
  end.
Proof.
  split.
  - destruct (fst (AddMany entries w)) as [err|] eqn:Hres.
    + rewrite AddMany_eq in *. simpl in *. unfold next_error, if_ok in *.
      destruct (io_fault (env w) (length (log w))); [reflexivity | discriminate].
    + split.
      2:{ intros d Hd. rewrite AddMany_eq in *. simpl in *.
          unfold next_error, if_ok in *.
          destruct (io_fault (env w) (length (log w))); [discriminate|].
          apply apply_batch_other, keys_avoid.
          rewrite AddMany_batch_keys. assumption. }
      intros entry Hin.
      destruct (last_occurrence (Domain entry) entries (in_map Domain _ _ Hin))
        as (before & last & after & -> & Hd & Hafter).
      exists last. split; [apply in_elt|]. split; [assumption|].
      intros w2 Hkv Hh. rewrite <- Hd in Hafter.
      pose proof (AddMany_stored before after last w Hres Hafter) as Hst.
      rewrite <- Hkv in Hst. rewrite <- Hd.
      rewrite (Query_present _ _ _ Hh Hst (value_of_valid _ _)). reflexivity.
  - rewrite DeleteMany_eq. simpl. unfold next_error, if_ok.
    destruct (io_fault (env w) (length (log w))); [reflexivity|].
    split.
    2:{ intros d Hd. apply apply_batch_other, keys_avoid.
        rewrite map_map. simpl. rewrite map_id. assumption. }
    intros d Hin.
    assert (Hgone : pebble.apply_batch (map BDelete domains) (kv w) !! d = None).
    { destruct (last_occurrence d (map (fun k => mkEntry k epoch) domains))
        as (before & last & after & Heq & Hd & Hafter).
      { rewrite map_map. simpl. rewrite map_id. assumption. }
      apply (f_equal (map Domain)) in Heq.
      rewrite map_map, map_app in Heq. simpl in Heq.
      rewrite map_id, Hd in Heq. rewrite Heq, map_app. simpl.
      apply apply_batch_last_delete, keys_avoid.
      rewrite map_map. simpl. rewrite map_id. assumption. }
    split; [assumption|].
    intros w2 Hkv Hh. apply Query_absent; [assumption|].
    rewrite Hkv. assumption.
Qed.

Lemma answers_lookup (domains : list string) :
  forall w i d,
    domains !! i = Some d ->
    answers w domains !! i =
    Some (fst (fst (Query d (queried w (take i domains))))).
Proof.
  induction domains as [|d0 rest IH]; intros w i d Hi; [discriminate|].
  destruct i as [|i]; simpl in *.
  - inversion Hi; subst. rewrite queried_nil. reflexivity.
  - rewrite (IH _ _ _ Hi), Query_world, queried_queried. reflexivity.
Qed.

Lemma first_error_None (domains : list string) :
  forall w,
    first_error w domains = None ->
    forall i d, domains !! i = Some d ->
      snd (fst (Query d (queried w (take i domains)))) = None.
Proof.
  induction domains as [|d0 rest IH]; intros w Hfe i d Hi; [discriminate|].
  simpl in Hfe.
  destruct (snd (fst (Query d0 w))) eqn:H0; [discriminate|].
  destruct (first_error (snd (Query d0 w)) rest) as [[k e]|] eqn:Hr;
    [discriminate|].
  destruct i as [|i]; simpl in *.
  - inversion Hi; subst. rewrite queried_nil. assumption.
  - rewrite Query_world in Hr.
    pose proof (IH _ Hr i d Hi) as H. rewrite queried_queried in H. exact H.
Qed.

Lemma first_error_Some (domains : list string) :
  forall w i e,
    first_error w domains = Some (i, e) ->
    (exists d, domains !! i = Some d /\
       snd (fst (Query d (queried w (take i domains)))) = Some e) /\
    (forall j dj, (j < i)%nat -> domains !! j = Some dj ->
       snd (fst (Query dj (queried w (take j domains)))) = None).
Proof.
  induction domains as [|d0 rest IH]; intros w i e Hfe; [discriminate|].
  simpl in Hfe.
  destruct (snd (fst (Query d0 w))) as [e0|] eqn:H0.
  - inversion Hfe; subst. split.
    + exists d0. simpl. rewrite queried_nil. auto.
    + intros j dj Hj. lia.
  - destruct (first_error (snd (Query d0 w)) rest) as [[k e']|] eqn:Hr;
      [|discriminate].
    inversion Hfe; subst. rewrite Query_world in Hr.
    destruct (IH _ _ _ Hr) as [[d [Hd Hq]] Hbefore]. split.
    + exists d. simpl. rewrite queried_queried in Hq. auto.
    + intros j dj Hj Hdj. destruct j as [|j]; simpl in *.
      * inversion Hdj; subst. rewrite queried_nil. assumption.
      * pose proof (Hbefore j dj ltac:(lia) Hdj) as H.
        rewrite queried_queried in H. exact H.
Qed.

(** C4.  [QueryMany] asks one [Query] per domain in input order, each in
    the world its predecessors left.  Either one of them fails: then the
    call returns the error of the first that does, with a nil slice, and
    the engine has been read for the domains up to that one only.  Or none
    fails: then the call returns no error and one entry per domain, the
    i-th being the answer of [Query] for the i-th domain, and the engine
    has been read exactly once per domain, in input order. *)
Theorem C4_QueryMany_in_order (domains : list string) (w : World) :
  (exists i d e,
     domains !! i = Some d /\
     snd (fst (Query d (queried w (take i domains)))) = Some e /\
     (forall j dj, (j < i)%nat -> domains !! j = Some dj ->
        snd (fst (Query dj (queried w (take j domains)))) = None) /\
     QueryMany domains w = ([], Some e, queried w (take (S i) domains)))
  \/
  (exists entries,
     QueryMany domains w = (entries, None, queried w domains) /\
     length entries = length domains /\
     map Domain entries = domains /\
     forall i d, domains !! i = Some d ->
       snd (fst (Query d (queried w (take i domains)))) = None /\
       entries !! i = Some (fst (fst (Query d (queried w (take i domains)))))).
Proof.
  unfold QueryMany. rewrite QueryMany_loop_eq.
  destruct (first_error w domains) as [[i e]|] eqn:Hfe.
  - left. destruct (first_error_Some _ _ _ _ Hfe) as [[d [Hd Hq]] Hbefore].
    exists i, d, e. auto.
  - right. exists (answers w domains). split; [reflexivity|].
    split; [apply answers_length|].
    split; [apply answers_domains; assumption|].
    intros i d Hi. split.
    + eapply first_error_None; eassumption.
    + apply answers_lookup. assumption.
Qed.

(** ** Handlers *)

(** C7.  For a domain that is not empty the query handler answers 200 or
    500, in every state of the store and of the engine. *)
Theorem C7_query_never_404 (domain : string) (w : World) :
  domain <> EmptyString ->
  status (fst (query PebbleDB domain w)) = 200 \/
  status (fst (query PebbleDB domain w)) = 500.
Proof.
  intros Hne. unfold query, bind. simpl.
  destruct (Query_cases domain w) as [[e [Hq _]]|[t Hq]];
    destruct (Query domain w) as [[entry err] w1]; simpl in Hq;
    inversion Hq; subst; simpl.
  - right. reflexivity.
  - left. destruct (String.eqb_spec domain EmptyString); [contradiction|].
    reflexivity.
Qed.

Lemma deleteDomain_status (domain : string) (w : World) :
  status (fst (deleteDomain PebbleDB domain w)) =
  match fst (Delete domain w) with None => 200 | Some _ => 404 end.
Proof.
  unfold deleteDomain, bind. simpl.
  destruct (Delete domain w) as [[e|] w1]; reflexivity.
Qed.

(** Deleting succeeds on a healthy engine whether or not the key is
    there. *)
Lemma Delete_blind (domain : string) (w : World) :
  healthy w -> fst (Delete domain w) = None.
Proof. intros H. rewrite Delete_eq. simpl. apply healthy_next_error, H. Qed.

(** C8.  On an empty store with a healthy engine, deleting a domain that
    is not there is answered 200. *)
Theorem C8_delete_absent_is_200 :
  kv (fresh (calm 0)) !! "absent.example" = None /\
  fst (Delete "absent.example" (fresh (calm 0))) = None /\
  status (fst (deleteDomain PebbleDB "absent.example" (fresh (calm 0)))) = 200.
Proof.
  split; [reflexivity|]. split.
  - apply Delete_blind. reflexivity.
  - rewrite deleteDomain_status, Delete_blind; reflexivity.
Qed.

(** ** Authentication *)

Module subtleFacts.
Import subtle.

Lemma byte_log2 (a : Z) : 0 <= a -> (a < 256 <-> Z.log2 a < 8).
Proof.
  intros Ha. destruct (Z.eq_dec a 0) as [->|Hnz].
  - simpl. lia.
  - change 256 with (2 ^ 8). apply Z.log2_lt_pow2. lia.
Qed.

Lemma byte_step (v a b : Z) :
  0 <= v < 256 -> 0 <= a < 256 -> 0 <= b < 256 ->
  0 <= Z.lor v (Z.lxor a b) < 256.
Proof.
  intros Hv Ha Hb.
  assert (Hx : 0 <= Z.lxor a b) by (apply Z.lxor_nonneg; lia).
  assert (Ho : 0 <= Z.lor v (Z.lxor a b)) by (apply Z.lor_nonneg; lia).
  split; [assumption|].
  apply byte_log2; [assumption|].
  rewrite Z.log2_lor by lia.
  pose proof (Z.log2_lxor a b ltac:(lia) ltac:(lia)) as Hl.
  pose proof (proj1 (byte_log2 v ltac:(lia)) ltac:(lia)).
  pose proof (proj1 (byte_log2 a ltac:(lia)) ltac:(lia)).
  pose proof (proj1 (byte_log2 b ltac:(lia)) ltac:(lia)).
  lia.
Qed.

Lemma ascii_byte (c : ascii) : 0 <= Z.of_N (N_of_ascii c) < 256.
Proof. pose proof (N_ascii_bounded c). lia. Qed.

Lemma or_xor_bound (x : string) :
  forall y v, 0 <= v < 256 -> 0 <= or_xor x y v < 256.
Proof.
  induction x as [|a x IH]; intros y v Hv; simpl; [assumption|].
  destruct y as [|b y]; [assumption|].
  apply IH, byte_step; auto using ascii_byte.
Qed.

Lemma or_xor_zero (x : string) :
  forall y v,
    String.length x = String.length y -> 0 <= v < 256 ->
    (or_xor x y v = 0 <-> v = 0 /\ x = y).
Proof.
  induction x as [|a x IH]; intros y v Hlen Hv; destruct y as [|b y];
    simpl in Hlen; try discriminate; simpl.
  - intuition.
  - injection Hlen as Hlen.
    rewrite (IH y _ Hlen) by (apply byte_step; auto using ascii_byte).
    rewrite Z.lor_eq_0_iff. split.
    + intros [[Hv0 Hx] ->]. split; [assumption|].
      apply Z.lxor_eq in Hx. apply N2Z.inj in Hx.
      rewrite <- (ascii_N_embedding a), <- (ascii_N_embedding b), Hx.
      reflexivity.
    + intros [Hv0 Heq]. injection Heq as -> ->.
      rewrite Z.lxor_nilpotent. auto.
Qed.

Lemma ByteEq_zero (v : Z) :
  0 <= v < 256 -> (ConstantTimeByteEq v 0 = 1 <-> v = 0).
Proof.
  intros Hv. unfold ConstantTimeByteEq.
  rewrite Z.lxor_0_r, Z.shiftr_div_pow2 by lia.
  destruct (Z.eq_dec v 0) as [->|Hnz].
  - split; [reflexivity|]. intros _. reflexivity.
  - rewrite Z.mod_small by lia. rewrite Z.div_small by lia. lia.
Qed.

(** [ConstantTimeCompare] answers 1 exactly on equal slices. *)
Lemma ConstantTimeCompare_eq (x y : string) :
  ConstantTimeCompare x y = 1 <-> x = y.
Proof.
  unfold ConstantTimeCompare.
  destruct (Nat.eqb_spec (String.length x) (String.length y)) as [Hlen|Hlen];
    simpl.
  - rewrite ByteEq_zero by (apply or_xor_bound; lia).
    rewrite or_xor_zero by (assumption || lia). tauto.
  - split; [discriminate|]. intros ->. contradiction.
Qed.

End subtleFacts.

Lemma match_any_In (username password : string) (users : list (string * string)) :
  match_any username password users = true <-> In (username, password) users.
Proof.
  induction users as [|[user pass] rest IH]; simpl.
  - split; [discriminate | tauto].
  - destruct (Z.eqb_spec (subtle.ConstantTimeCompare username user) 1) as [Hu|Hu];
      destruct (Z.eqb_spec (subtle.ConstantTimeCompare password pass) 1) as [Hp|Hp];
      simpl; rewrite ?subtleFacts.ConstantTimeCompare_eq in *.
    + subst. split; auto.
    + rewrite IH. split; [auto|]. intros [Heq|H]; [|assumption].
      inversion Heq; subst. contradiction.
    + rewrite IH. split; [auto|]. intros [Heq|H]; [|assumption].
      inversion Heq; subst. contradiction.
    + rewrite IH. split; [auto|]. intros [Heq|H]; [|assumption].
      inversion Heq; subst. contradiction.
Qed.

(** The loop over a credential mapping accepts exactly its pairs. *)
Lemma match_any_map (username password : string) (users : gmap string string) :
  match_any username password (map_to_list users) =
  bool_decide (users !! username = Some password).
Proof.
  destruct (match_any username password (map_to_list users)) eqn:Hm;
    symmetry.
  - apply bool_decide_eq_true. apply match_any_In in Hm.
    apply elem_of_map_to_list, list_elem_of_In. assumption.
  - apply bool_decide_eq_false. intros Hl.
    apply elem_of_map_to_list, list_elem_of_In, match_any_In in Hl. congruence.
Qed.

Lemma realm_check (method : string) (users : gmap string string)
    (username password : string) :
  (if String.eqb method "none" then true
   else match_any username password (map_to_list users)) =
  realm_admits method users username password.
Proof.
  unfold realm_admits, credential_checked. rewrite match_any_map.
  destruct (String.eqb method "none"); reflexivity.
Qed.




(** ** Concrete runs *)

Example Marshal_text :
  JSON.Marshal (mkValue 1704067200 (-5)) =
  String "{" (JSON.quoted "first_observed" +:+ ":1704067200," +:+
              JSON.quoted "now" +:+ ":-5}").
Proof. vm_compute. reflexivity. Qed.

Example Unmarshal_loose_text :
  JSON.Unmarshal
    (" { " +:+ JSON.quoted "Now" +:+ " : 7 , " +:+ JSON.quoted "extra" +:+
     ":0," +:+ JSON.quoted "first_observed" +:+ ":-12 } ") =
  (mkValue (-12) 7, None).
Proof. vm_compute. reflexivity. Qed.

Example Unmarshal_overflow :
  JSON.Unmarshal
    (String "{" (JSON.quoted "now" +:+ ":9223372036854775808}")) =
  (Value_zero, Some JSONErr).
Proof. vm_compute. reflexivity. Qed.

Example time_Unix_carry : time_Unix 10 (-1) = mkTime 9 999999999.
Proof. reflexivity. Qed.

Example normalizePathSlash_runs :
  normalizePathSlash "api/query/:domain" = "/api/query/:domain" /\
  normalizePathSlash "/admin/add_domain" = "/admin/add_domain" /\
  normalizePathSlash "" = "/".
Proof. repeat split. Qed.

Example scenario_add_then_query :
  fst (Query "evil.example" (snd (Add evil (fresh (calm 1700000000))))) =
  (mkEntry "evil.example" (mkTime 1704067200 0), None).
Proof. vm_compute. reflexivity. Qed.

Example scenario_engine_failure :
  fst (Query "evil.example"
         (mkWorld ∅ [] 0 (mkEnv (fun _ => Some FaultClosed) (fun _ => epoch)))) =
  (Entry_zero, Some (EngineErr FaultClosed)).
Proof. vm_compute. reflexivity. Qed.

Example scenario_batch_then_query_many :
  fst (QueryMany ["other.example"; "missing.example"; "evil.example"]
         (snd (AddMany [evil; other] (fresh (calm 1700000000))))) =
  ([mkEntry "other.example" (mkTime 1650000000 0);
    mkEntry "missing.example" epoch;
    mkEntry "evil.example" (mkTime 1704067200 0)], None).
Proof. vm_compute. reflexivity. Qed.

Example ConstantTimeCompare_runs :
  subtle.ConstantTimeCompare "secret" "secret" = 1 /\
  subtle.ConstantTimeCompare "secret" "secreT" = 0 /\
  subtle.ConstantTimeCompare "secret" "secrets" = 0.
Proof. vm_compute. auto. Qed.

(** ** The theorems at work on concrete stores and configurations *)

Lemma C1_witness :
  fst (Query "never-seen.example" (exec_all some_history (fresh (calm 1700000000)))) =
  (mkEntry "never-seen.example" epoch, None).
Proof.
  refine (proj1 (C1_query_never_inserted (calm 1700000000) some_history
                   "never-seen.example" _) _).
  - simpl. intuition discriminate.
  - vm_compute. reflexivity.
Defined.

Lemma C2_witness :
  fst (Query "evil.example" (snd (Add evil (fresh (calm 1700000000))))) =
  (mkEntry "evil.example" (mkTime 1704067200 0), None).
Proof.
  apply (C2_add_query_roundtrip evil (fresh (calm 1700000000))
           (snd (Add evil (fresh (calm 1700000000))))).
  - unfold Time_valid, Int64.in_range, Int64.min_int, Int64.max_int. simpl. lia.
  - vm_compute. reflexivity.
  - reflexivity.
  - vm_compute. reflexivity.
Defined.

Lemma C10_witness :
  fst (Query "zero.example"
         (snd (Add (mkEntry "zero.example" epoch) (fresh (calm 1700000000))))) =
  fst (Query "zero.example" (exec_all some_history (fresh (calm 1700000000)))).
Proof.
  apply (C10_epoch_entry_is_sentinel "zero.example" (fresh (calm 1700000000))
           (calm 1700000000) some_history).
  - vm_compute. reflexivity.
  - vm_compute. reflexivity.
  - simpl. intuition discriminate.
  - vm_compute. reflexivity.
Defined.

Lemma C9_witness :
  kv (snd (Add older (snd (Add evil (fresh (calm 1700000000)))))) !! "evil.example" =
    Some (JSON.Marshal (mkValue 1600000000 1700000001)) /\
  kv (snd (AddMany [evil; older; other] (fresh (calm 1700000000)))) !! "evil.example" =
    Some (JSON.Marshal (mkValue 1600000000 1700000001)).
Proof.
  split.
  - refine (proj1 (proj2 (proj1
      (C9_last_write_wins (snd (Add evil (fresh (calm 1700000000))))
         older [] [] _ _)))).
    + vm_compute. reflexivity.
    + simpl. tauto.
  - refine (proj1 (proj2 (proj2
      (C9_last_write_wins (fresh (calm 1700000000)) older [evil] [other] _ _)))).
    + vm_compute. reflexivity.
    + simpl. intuition discriminate.
Defined.

Lemma C7_witness :
  status (fst (query PebbleDB "never-seen.example" (fresh (calm 0)))) = 200 \/
  status (fst (query PebbleDB "never-seen.example" (fresh (calm 0)))) = 500.
Proof.
  apply (C7_query_never_404 "never-seen.example" (fresh (calm 0))).
  discriminate.
Defined.



Lemma C3_witness :
  (exists last, In last [evil; other; older] /\ Domain last = "evil.example" /\
     fst (Query "evil.example"
            (snd (AddMany [evil; other; older] (fresh (calm 1700000000))))) =
     (mkEntry "evil.example" (mkTime (Time_Unix (RegistrationDate last)) 0), None)) /\
  kv (snd (DeleteMany ["evil.example"]
             (snd (Add evil (fresh (calm 1700000000)))))) !! "evil.example" = None.
Proof.
  split.
  - destruct (C3_batches_atomic (fresh (calm 1700000000)) [evil; other; older] [])
      as [H _].
    assert (Hok : fst (AddMany [evil; other; older] (fresh (calm 1700000000))) = None)
      by (vm_compute; reflexivity).
    rewrite Hok in H. destruct H as [H _].
    destruct (H evil (or_introl eq_refl)) as (last & Hin & Hd & Hq).
    exists last. split; [assumption|]. split; [assumption|].
    apply Hq; [reflexivity | vm_compute; reflexivity].
  - destruct (C3_batches_atomic (snd (Add evil (fresh (calm 1700000000))))
                [] ["evil.example"]) as [_ H].
    assert (Hok : fst (DeleteMany ["evil.example"]
                         (snd (Add evil (fresh (calm 1700000000))))) = None)
      by (vm_compute; reflexivity).
    rewrite Hok in H. destruct H as [H _].
    apply (H "evil.example" (or_introl eq_refl)).
Defined.

(** * Further properties of the store *)

(** What [Query] answers depends on the world only through what the
    content holds for the domain and through the outcome of the read. *)
Lemma Query_local (d : string) (w1 w2 : World) :
  kv w1 !! d = kv w2 !! d ->
  io_fault (env w1) (length (log w1)) = io_fault (env w2) (length (log w2)) ->
  fst (Query d w1) = fst (Query d w2).
Proof.
  intros Hk Hio. unfold Query, bind. rewrite !Get_eq, Hk, Hio. unfold ret.
  destruct (io_fault (env w2) (length (log w2))); [reflexivity|].
  destruct (kv w2 !! d) as [v|]; [|reflexivity].
  destruct (JSON.Unmarshal v) as [value [e|]]; reflexivity.
Qed.

Lemma Delete_kv (d : string) (w : World) :
  kv (snd (Delete d w)) = if_ok w (delete d) (kv w).
Proof. rewrite Delete_eq. reflexivity. Qed.

Lemma Add_kv (entry : Entry) (w : World) :
  kv (snd (Add entry w)) =
  if_ok w (insert (Domain entry)
             (JSON.Marshal (value_of entry (wall_clock (env w) (ticks w)))))
    (kv w).
Proof. rewrite Add_eq. reflexivity. Qed.

(** X1.  A successful [Delete] makes later queries answer the sentinel. *)
Theorem Delete_then_Query (d : string) (w w2 : World) :
  fst (Delete d w) = None ->
  kv w2 = kv (snd (Delete d w)) ->
  healthy w2 ->
  fst (Query d w2) = (mkEntry d epoch, None).
Proof.
  intros Hok Hkv Hh. apply Query_absent; [assumption|].
  rewrite Hkv, Delete_kv. rewrite Delete_eq in Hok. simpl in Hok.
  unfold next_error in Hok. unfold if_ok.
  destruct (io_fault (env w) (length (log w))); [discriminate|].
  apply lookup_delete_eq.
Qed.

(** X2.  Deleting a domain the store does not hold changes nothing, and is no
    error when the engine serves the call. *)
Theorem Delete_absent_noop (d : string) (w : World) :
  kv w !! d = None ->
  kv (snd (Delete d w)) = kv w /\
  (healthy w -> fst (Delete d w) = None).
Proof.
  intros Hk. split.
  - rewrite Delete_kv. unfold if_ok.
    destruct (io_fault (env w) (length (log w))); [reflexivity|].
    apply delete_id. assumption.
  - apply Delete_blind.
Qed.

(** X3.  [Add] and [Delete] leave the answers for every other domain as they
    were. *)
Theorem writes_are_local (w : World) (entry : Entry) (d other : string) :
  healthy w ->
  (other <> Domain entry -> healthy (snd (Add entry w)) ->
   fst (Query other (snd (Add entry w))) = fst (Query other w)) /\
  (other <> d -> healthy (snd (Delete d w)) ->
   fst (Query other (snd (Delete d w))) = fst (Query other w)).
Proof.
  intros Hh. unfold healthy in *. split; intros Hne Hh1.
  - apply Query_local; [|congruence].
    rewrite Add_kv. unfold if_ok.
    destruct (io_fault (env w) (length (log w))); [reflexivity|].
    apply lookup_insert_ne. congruence.
  - apply Query_local; [|congruence].
    rewrite Delete_kv. unfold if_ok.
    destruct (io_fault (env w) (length (log w))); [reflexivity|].
    apply lookup_delete_ne. congruence.
Qed.

(** X4.  An [Add] or a [Delete] that returns an error returns the engine's and
    has changed nothing in the content. *)
Theorem failed_write_changes_nothing
    (w : World) (entry : Entry) (d : string) (err : error) :
  (fst (Add entry w) = Some err ->
   kv (snd (Add entry w)) = kv w /\ exists f, err = EngineErr f) /\
  (fst (Delete d w) = Some err ->
   kv (snd (Delete d w)) = kv w /\ exists f, err = EngineErr f).
Proof.
  rewrite Add_kv, Delete_kv, Add_eq, Delete_eq. simpl.
  unfold next_error, if_ok.
  destruct (io_fault (env w) (length (log w))) as [f|]; split; intros H;
    try discriminate; inversion H; subst; eauto.
Qed.

(** X5.  [Query] and [QueryMany] never write and never read the clock. *)
Theorem queries_read_only (d : string) (domains : list string) (w : World) :
  (kv (snd (Query d w)) = kv w /\ ticks (snd (Query d w)) = ticks w) /\
  (kv (snd (QueryMany domains w)) = kv w /\
   ticks (snd (QueryMany domains w)) = ticks w).
Proof.
  split.
  - rewrite Query_world. split; reflexivity.
  - unfold QueryMany. rewrite QueryMany_loop_eq.
    destruct (first_error w domains) as [[i e]|]; split; reflexivity.
Qed.

(** *** Batches against single calls *)

Lemma add_each_eq (entries : list Entry) :
  forall w,
    healthy_for (length entries) w ->
    kv (add_each entries w) =
      pebble.apply_batch
        (AddMany_batch (wall_clock (env w)) (ticks w) entries) (kv w) /\
    ticks (add_each entries w) = (ticks w + length entries)%nat.
Proof.
  unfold add_each, healthy_for.
  induction entries as [|e rest IH]; intros w Hh.
  - simpl. split; [reflexivity | lia].
  - simpl. rewrite Add_eq. simpl.
    set (w1 := moved w _ _ 1).
    destruct (IH w1) as [Hkv Ht].
    { intros i Hi. unfold w1. simpl. rewrite length_app. simpl.
      replace (length (log w) + 1 + i)%nat with (length (log w) + S i)%nat by lia.
      apply Hh. simpl. lia. }
    rewrite Hkv, Ht. unfold w1, if_ok. simpl.
    pose proof (Hh 0%nat ltac:(simpl; lia)) as H0. rewrite Nat.add_0_r in H0.
    rewrite H0, Nat.add_1_r. split; [reflexivity | lia].
Qed.

(** X6.  When the engine serves every call, [AddMany] leaves the content, and
    the clock, as adding the entries one after the other does. *)
Theorem AddMany_as_adds (entries : list Entry) (w : World) :
  healthy_for (length entries) w ->
  kv (snd (AddMany entries w)) = kv (add_each entries w) /\
  ticks (snd (AddMany entries w)) = ticks (add_each entries w).
Proof.
  intros Hh. destruct (add_each_eq entries w Hh) as [Hkv Ht].
  rewrite Hkv, Ht, AddMany_eq. simpl. split; [|reflexivity].
  unfold if_ok. destruct entries as [|e rest]; simpl.
  - destruct (io_fault (env w) (length (log w))); reflexivity.
  - pose proof (Hh 0%nat ltac:(simpl; lia)) as H0. rewrite Nat.add_0_r in H0.
    rewrite H0. reflexivity.
Qed.

Lemma delete_each_eq (domains : list string) :
  forall w,
    healthy_for (length domains) w ->
    kv (delete_each domains w) =
      pebble.apply_batch (map BDelete domains) (kv w).
Proof.
  unfold delete_each, healthy_for.
  induction domains as [|d rest IH]; intros w Hh; [reflexivity|].
  simpl. rewrite Delete_eq. simpl.
  set (w1 := moved w _ _ 0).
  rewrite (IH w1).
  - unfold w1, if_ok. simpl.
    pose proof (Hh 0%nat ltac:(simpl; lia)) as H0. rewrite Nat.add_0_r in H0.
    rewrite H0. reflexivity.
  - intros i Hi. unfold w1. simpl. rewrite length_app. simpl.
    replace (length (log w) + 1 + i)%nat with (length (log w) + S i)%nat by lia.
    apply Hh. simpl. lia.
Qed.

(** X7.  When the engine serves every call, [DeleteMany] leaves the content as
    deleting the domains one after the other does. *)
Theorem DeleteMany_as_deletes (domains : list string) (w : World) :
  healthy_for (length domains) w ->
  kv (snd (DeleteMany domains w)) = kv (delete_each domains w).
Proof.
  intros Hh. rewrite (delete_each_eq domains w Hh), DeleteMany_eq. simpl.
  unfold if_ok. destruct domains as [|d rest]; simpl.
  - destruct (io_fault (env w) (length (log w))); reflexivity.
  - pose proof (Hh 0%nat ltac:(simpl; lia)) as H0. rewrite Nat.add_0_r in H0.
    rewrite H0. reflexivity.
Qed.

(** *** What a store written by the program holds *)

Lemma written_insert (m : gmap string string) (k : string) (value : Value) :
  Value_valid value -> written_by_store m ->
  written_by_store (<[k := JSON.Marshal value]> m).
Proof.
  intros Hv Hm k' v Hl. destruct (decide (k = k')) as [->|Hne].
  - rewrite lookup_insert_eq in Hl. inversion Hl; subst. eauto.
  - rewrite lookup_insert_ne in Hl by assumption. eapply Hm. eassumption.
Qed.

Lemma written_delete (m : gmap string string) (k : string) :
  written_by_store m -> written_by_store (delete k m).
Proof.
  intros Hm k' v Hl. destruct (decide (k = k')) as [->|Hne].
  - rewrite lookup_delete_eq in Hl. discriminate.
  - rewrite lookup_delete_ne in Hl by assumption. eapply Hm. eassumption.
Qed.

Lemma written_AddMany_batch (clock : nat -> Time) (entries : list Entry) :
  forall t (m : gmap string string),
    written_by_store m ->
    written_by_store (pebble.apply_batch (AddMany_batch clock t entries) m).
Proof.
  induction entries as [|e rest IH]; intros t m Hm; [assumption|].
  simpl. apply IH, written_insert; [apply value_of_valid | assumption].
Qed.

Lemma written_deletes (domains : list string) :
  forall m : gmap string string,
    written_by_store m ->
    written_by_store (pebble.apply_batch (map BDelete domains) m).
Proof.
  induction domains as [|d rest IH]; intros m Hm; [assumption|].
  simpl. apply IH, written_delete. assumption.
Qed.

Lemma written_if_ok (w : World) (f : gmap string string -> gmap string string) :
  (forall m, written_by_store m -> written_by_store (f m)) ->
  written_by_store (kv w) -> written_by_store (if_ok w f (kv w)).
Proof.
  intros Hf Hm. unfold if_ok. destruct (io_fault _ _); [assumption | apply Hf, Hm].
Qed.

Lemma exec_written (c : store_call) (w : World) :
  written_by_store (kv w) -> written_by_store (kv (exec c w)).
Proof.
  intros Hm. destruct c as [e|es|k|ks|k|ks]; simpl.
  - rewrite Add_kv. apply written_if_ok; [|assumption].
    intros m. apply written_insert, value_of_valid.
  - rewrite AddMany_eq. simpl. apply written_if_ok; [|assumption].
    intros m. apply written_AddMany_batch.
  - rewrite Delete_kv. apply written_if_ok; [|assumption].
    intros m. apply written_delete.
  - rewrite DeleteMany_eq. simpl. apply written_if_ok; [|assumption].
    intros m. apply written_deletes.
  - rewrite Query_world. assumption.
  - rewrite QueryMany_world. assumption.
Qed.

Lemma exec_all_written (history : list store_call) :
  forall w, written_by_store (kv w) -> written_by_store (kv (exec_all history w)).
Proof.
  induction history as [|c rest IH]; intros w Hm; [assumption|].
  simpl. apply IH, exec_written, Hm.
Qed.

(** X8.  On a store opened fresh and written only through the store's own
    calls, every value decodes: [Query] answers for the domain asked
    whenever the engine serves the read, and the only error it ever
    returns is the engine's. *)
Theorem Query_on_own_store
    (e : Env) (history : list store_call) (d : string) :
  let w := exec_all history (fresh e) in
  written_by_store (kv w) /\
  (healthy w -> exists t, fst (Query d w) = (mkEntry d (mkTime t 0), None)) /\
  (forall err, snd (fst (Query d w)) = Some err -> exists f, err = EngineErr f).
Proof.
  intros w.
  assert (Hw : written_by_store (kv w)).
  { apply exec_all_written. intros k v Hl. cbn in Hl.
    rewrite lookup_empty in Hl. discriminate. }
  split; [assumption|].
  assert (Hq : healthy w ->
               exists t, fst (Query d w) = (mkEntry d (mkTime t 0), None)).
  { intros Hh. destruct (kv w !! d) as [v|] eqn:Hk.
    - destruct (Hw d v Hk) as (value & Hv & ->).
      exists (FirstObserved value). apply Query_present; assumption.
    - exists 0. apply Query_absent; assumption. }
  split; [assumption|].
  intros err Herr.
  destruct (io_fault (env w) (length (log w))) as [f|] eqn:Hio.
  - rewrite (Query_fault d w f Hio) in Herr. inversion Herr. eauto.
  - destruct (Hq Hio) as [t Ht]. rewrite Ht in Herr. discriminate.
Qed.

(** * Further properties of the handlers *)

(** X9.  The query handler answers 500 exactly when [Query] returns an
    error; when it returns none, the handler answers 404 if the domain
    parameter is empty and 200, with the domain and the date [Query]
    returned, if it is not.  For the empty domain it never answers 200. *)
Theorem query_outcome (domain : string) (w : World) :
  let r := fst (query PebbleDB domain w) in
  let q := fst (Query domain w) in
  (status r = 500 <-> snd q <> None) /\
  (status r = 404 <-> domain = EmptyString /\ snd q = None) /\
  (status r = 200 <-> domain <> EmptyString /\ snd q = None) /\
  (status r = 200 ->
   payload r = BodyEntry domain (RegistrationDate (fst q))).
Proof.
  unfold query, bind. simpl.
  destruct (Query_cases domain w) as [[e [Hq _]]|[t Hq]];
    destruct (Query domain w) as [[entry err] w1]; simpl in Hq;
    inversion Hq; subst; simpl.
  - intuition (try discriminate; try congruence).
  - destruct (String.eqb_spec domain EmptyString) as [->|Hne]; simpl;
      intuition (try discriminate; try congruence).
Qed.

(** X10.  After [addDomain] has answered 200 for an entry with a representable
    date and a domain that is not empty, the query handler answers 200
    with that domain and the date cut to whole seconds. *)
Theorem addDomain_then_query (entry : Entry) (w : World) :
  Time_valid (RegistrationDate entry) ->
  Domain entry <> EmptyString ->
  status (fst (addDomain PebbleDB (Some entry) w)) = 200 ->
  healthy (snd (addDomain PebbleDB (Some entry) w)) ->
  fst (query PebbleDB (Domain entry) (snd (addDomain PebbleDB (Some entry) w))) =
  mkResponse 200
    (BodyEntry (Domain entry) (Time_Truncate_Second (RegistrationDate entry))).
Proof.
  intros [Hs _] Hne Hst Hh. unfold addDomain, bind in *. simpl in *.
  pose proof (Add_stored entry w) as Hstored.
  destruct (Add entry w) as [[err|] w1]; simpl in *; [discriminate|].
  specialize (Hstored eq_refl).
  pose proof (Query_present _ _ _ Hh Hstored (value_of_valid _ _)) as Hq.
  unfold query, bind. simpl.
  destruct (Query (Domain entry) w1) as [[en er] w2]. simpl in Hq.
  inversion Hq; subst. simpl.
  destruct (String.eqb_spec (Domain entry) EmptyString); [contradiction|].
  unfold Time_Truncate_Second, Time_Unix. rewrite wrap_id by assumption.
  reflexivity.
Qed.

(** X11.  [addDomains]: a body that does not bind is answered 400 and nothing
    is touched; else the answer is 409 exactly when [AddMany] returns an
    error, and then the content is what it was; else it is 200 and every
    domain of the body is in the store. *)
Theorem addDomains_outcome (bound : option (list Entry)) (w : World) :
  let r := addDomains PebbleDB bound w in
  match bound with
  | None => r = (mkResponse 400 (BodyError "bad request"), w)
  | Some entries =>
      match fst (AddMany entries w) with
      | Some _ => status (fst r) = 409 /\ kv (snd r) = kv w
      | None =>
          status (fst r) = 200 /\
          forall entry, In entry entries -> is_Some (kv (snd r) !! Domain entry)
      end
  end.
Proof.
  destruct bound as [entries|]; [|reflexivity].
  unfold addDomains, bind. simpl. rewrite AddMany_eq. simpl.
  unfold next_error, if_ok.
  destruct (io_fault (env w) (length (log w))) as [f|]; simpl.
  - split; reflexivity.
  - split; [reflexivity|]. intros entry Hin.
    destruct (last_occurrence (Domain entry) entries (in_map Domain _ _ Hin))
      as (before & last & after & -> & Hd & Hafter).
    rewrite AddMany_batch_app. simpl. rewrite <- Hd.
    rewrite apply_batch_last_set; [eauto|].
    apply keys_avoid. rewrite AddMany_batch_keys, Hd. assumption.
Qed.

(** X12.  [deleteDomains]: a body that does not bind is answered 400 and
    nothing is touched; else the answer is 404 exactly when [DeleteMany]
    returns an error, and then the content is what it was; else it is 200,
    whether or not the store held the domains, and none of them is in the
    store afterwards. *)
Theorem deleteDomains_outcome (bound : option (list string)) (w : World) :
  let r := deleteDomains PebbleDB bound w in
  match bound with
  | None => r = (mkResponse 400 (BodyError "bad request"), w)
  | Some domains =>
      match fst (DeleteMany domains w) with
      | Some _ => status (fst r) = 404 /\ kv (snd r) = kv w
      | None =>
          status (fst r) = 200 /\
          forall d, In d domains -> kv (snd r) !! d = None
      end
  end.
Proof.
  destruct bound as [domains|]; [|reflexivity].
  unfold deleteDomains, bind. simpl. rewrite DeleteMany_eq. simpl.
  unfold next_error, if_ok.
  destruct (io_fault (env w) (length (log w))) as [f|]; simpl.
  - split; reflexivity.
  - split; [reflexivity|]. intros d Hin.
    destruct (last_occurrence d (map (fun k => mkEntry k epoch) domains))
      as (before & last & after & Heq & Hd & Hafter).
    { rewrite map_map. simpl. rewrite map_id. assumption. }
    apply (f_equal (map Domain)) in Heq.
    rewrite map_map, map_app in Heq. simpl in Heq.
    rewrite map_id, Hd in Heq. rewrite Heq, map_app. simpl.
    apply apply_batch_last_delete, keys_avoid.
    rewrite map_map. simpl. rewrite map_id. assumption.
Qed.

(** X13.  [queryMany]: a body that does not bind is answered 400 and nothing
    is touched; when [QueryMany] returns an error the answer is 500; when
    it returns none, the entries are one per domain of the body, in the
    body's order and each for its own domain, and the answer is 200 with
    them if they can be encoded and 500 if they cannot. *)
Theorem queryMany_outcome
    (json_ok : list Entry -> bool) (bound : option (list string)) (w : World) :
  let r := queryMany PebbleDB json_ok bound w in
  match bound with
  | None => r = (mkManyResponse 400 (ManyError "bad request"), w)
  | Some domains =>
      match snd (fst (QueryMany domains w)) with
      | Some _ => fst r = mkManyResponse 500 (ManyError "internal server error")
      | None =>
          let entries := fst (fst (QueryMany domains w)) in
          map Domain entries = domains /\
          (json_ok entries = true ->
           fst r = mkManyResponse 200 (ManyEntries entries)) /\
          (json_ok entries = false ->
           fst r = mkManyResponse 500 (ManyMessage "Internal Server Error"))
      end
  end.
Proof.
  destruct bound as [domains|]; [|reflexivity].
  unfold queryMany, bind. simpl.
  unfold QueryMany. rewrite QueryMany_loop_eq.
  destruct (first_error w domains) as [[i e]|] eqn:Hfe; simpl.
  - reflexivity.
  - split; [apply answers_domains; assumption|].
    split; intros ->; reflexivity.
Qed.

(** * Further properties of the authentication *)

Lemma prefix_app (a b : string) : String.prefix a (a +:+ b) = true.
Proof.
  induction a as [|c a IH]; simpl; [destruct b; reflexivity|].
  destruct (ascii_dec c c); [assumption | contradiction].
Qed.

Lemma prefix_app_r (a : string) :
  forall b x, String.prefix a b = true -> String.prefix a (b +:+ x) = true.
Proof.
  induction a as [|c a IH]; intros b x H.
  - destruct (b +:+ x); reflexivity.
  - destruct b as [|c' b]; simpl in *; [discriminate|].
    destruct (ascii_dec c c'); [apply IH; assumption | discriminate].
Qed.

Lemma prefix_empty (a : string) :
  String.prefix a EmptyString = true -> a = EmptyString.
Proof. destruct a; [reflexivity | discriminate]. Qed.

(** Under the admin base path, under the query base path and on the
    empty path the validator decides as the governing realm does. *)
Lemma validator_under_base (C : Config) (path username password : string) :
  String.prefix (BasePathAdmin C) path = true \/
  String.prefix (BasePath C) path = true \/ path = EmptyString ->
  validator C path username password = spec_decision C path username password.
Proof.
  intros Hq. unfold spec_decision, validator.
  destruct (String.prefix (BasePathAdmin C) path); [apply realm_check|].
  destruct Hq as [Hq|[Hq|Hq]]; [discriminate | |].
  - rewrite Hq. apply realm_check.
  - subst path. rewrite orb_true_r. apply realm_check.
Qed.

Lemma prefix_nil (s : string) : String.prefix EmptyString s = true.
Proof. destruct s; reflexivity. Qed.

Lemma rooted_prefix (base suffix : string) :
  rooted base = true ->
  String.prefix base (normalizePathSlash (base +:+ suffix)) = true.
Proof.
  destruct base as [|c base].
  - intros _. apply prefix_nil.
  - simpl. intros Hc. rewrite Hc. apply (prefix_app (String c base) suffix).
Qed.

Lemma unrooted_normalize (c : ascii) (base suffix : string) :
  c <> "/"%char ->
  normalizePathSlash (String c base +:+ suffix) =
    String "/" (String c base +:+ suffix) /\
  String.prefix (String c base) (String "/" (String c base +:+ suffix)) = false.
Proof.
  intros Hc. simpl.
  destruct (Ascii.eqb_spec c "/"); [contradiction|].
  split; [reflexivity|].
  destruct (ascii_dec c "/"); [contradiction | reflexivity].
Qed.

(** X14.  When both base paths are empty or start with a slash, the
    validator decides by the realm rule alone on every path it can be
    handed, the stored pattern of a registered route or the empty path of
    an unmatched request: admin realm under the admin base path, query
    realm elsewhere.  The refusal of paths under neither base path is not
    met then. *)
Theorem validator_on_routes (C : Config) (path username password : string) :
  rooted (BasePath C) = true ->
  rooted (BasePathAdmin C) = true ->
  route_path C path ->
  validator C path username password = spec_decision C path username password.
Proof.
  intros Hq Ha [Hin|Hempty]; apply validator_under_base; [|auto].
  simpl in Hin.
  destruct Hin as [<-|[<-|[<-|[<-|[<-|[<-|[]]]]]]];
    first [ right; left; apply rooted_prefix; assumption
          | left; apply rooted_prefix; assumption ].
Qed.

(** X15.  When the admin base path is empty or starts with a slash, each
    of the four admin routes is decided by the admin realm, whatever the
    query base path is. *)
Theorem admin_routes_admin_realm
    (C : Config) (route : http_method * string) (username password : string) :
  rooted (BasePathAdmin C) = true ->
  In route (AddAdminPaths C) ->
  validator C (normalizePathSlash (snd route)) username password =
  realm_admits (AuthMethodAdmin C) (AuthUsersAdmin C) username password.
Proof.
  intros Ha Hin. unfold validator.
  assert (Hp : String.prefix (BasePathAdmin C)
                 (normalizePathSlash (snd route)) = true).
  { simpl in Hin.
    destruct Hin as [<-|[<-|[<-|[<-|[]]]]]; apply rooted_prefix; assumption. }
  rewrite Hp. apply realm_check.
Qed.

(** X16.  When the query base path is empty or starts with a slash and the
    admin base path is a prefix of it, the query routes too are decided by
    the admin realm: the query realm's method and users are never
    consulted for them. *)
Theorem admin_base_shadows_query
    (C : Config) (route : http_method * string) (username password : string) :
  rooted (BasePath C) = true ->
  String.prefix (BasePathAdmin C) (BasePath C) = true ->
  In route (AddQueryPaths C) ->
  validator C (normalizePathSlash (snd route)) username password =
  realm_admits (AuthMethodAdmin C) (AuthUsersAdmin C) username password.
Proof.
  intros Hq Hsh Hin. unfold validator.
  assert (Hp : String.prefix (BasePathAdmin C)
                 (normalizePathSlash (snd route)) = true).
  { destruct (BasePath C) as [|c base] eqn:Hb.
    - apply prefix_empty in Hsh. rewrite Hsh. apply prefix_nil.
    - simpl in Hq. simpl in Hin. rewrite Hb in Hin.
      destruct Hin as [<-|[<-|[]]]; simpl; rewrite Hq;
        apply (prefix_app_r _ (String c base)); assumption. }
  rewrite Hp. apply realm_check.
Qed.

(** X19.  When the query base path is not empty and does not start with a
    slash, a query route that is not under the admin base path is refused
    by the validator for every username and password, whatever the two
    realms' methods and users are. *)
Theorem unrooted_query_base_locks_routes
    (C : Config) (c : ascii) (base : string)
    (route : http_method * string) (username password : string) :
  BasePath C = String c base ->
  c <> "/"%char ->
  In route (AddQueryPaths C) ->
  String.prefix (BasePathAdmin C) (normalizePathSlash (snd route)) = false ->
  validator C (normalizePathSlash (snd route)) username password = false.
Proof.
  intros Hb Hc Hin Hadm. unfold validator. rewrite Hadm.
  simpl in Hin. rewrite Hb in Hin.
  destruct Hin as [<-|[<-|[]]]; cbn [snd] in *;
    match goal with
    | |- context [normalizePathSlash (String c base +:+ ?x)] =>
        destruct (unrooted_normalize c base x Hc) as [Hn Hp]
    end;
    rewrite Hn, Hb, Hp; reflexivity.
Qed.

(** X20.  When the admin base path is not empty and does not start with a
    slash, and the query base path is a prefix of the admin base path
    with a slash put in front (as the query base path [/] is), the four
    admin routes are decided by the query realm: the admin realm's method
    and users are never consulted for them. *)
Theorem unrooted_admin_base_opens_routes
    (C : Config) (c : ascii) (base : string)
    (route : http_method * string) (username password : string) :
  BasePathAdmin C = String c base ->
  c <> "/"%char ->
  String.prefix (BasePath C) (String "/" (BasePathAdmin C)) = true ->
  In route (AddAdminPaths C) ->
  validator C (normalizePathSlash (snd route)) username password =
  realm_admits (AuthMethodAPI C) (AuthUsersAPI C) username password.
Proof.
  intros Hb Hc Hq Hin. unfold validator.
  simpl in Hin. rewrite Hb in Hin, Hq.
  destruct Hin as [<-|[<-|[<-|[<-|[]]]]]; cbn [snd] in *;
    match goal with
    | |- context [normalizePathSlash (String c base +:+ ?x)] =>
        destruct (unrooted_normalize c base x Hc) as [Hn Hp];
        pose proof (prefix_app_r _ _ x Hq) as Hq'
    end;
    rewrite Hn, Hb, Hp; simpl in Hq'; simpl; rewrite Hq'; apply realm_check.
Qed.

(** X17.  The verdict of the loop over a realm's users does not depend on the
    order in which the map is ranged over. *)
Theorem match_any_any_order
    (username password : string) (users users' : list (string * string)) :
  Permutation users users' ->
  match_any username password users = match_any username password users'.
Proof.
  intros Hp.
  destruct (match_any username password users) eqn:H1;
    destruct (match_any username password users') eqn:H2; try reflexivity.
  - apply match_any_In in H1. apply (Permutation_in _ Hp) in H1.
    apply match_any_In in H1. congruence.
  - apply match_any_In in H2. apply (Permutation_in _ (Permutation_sym Hp)) in H2.
    apply match_any_In in H2. congruence.
Qed.

(** X18.  With the middleware installed, a realm without a method still asks
    for a Basic header: a request that carries none is answered 401 on
    every path, and one that carries any pair passes on the paths of a
    realm without a method. *)
Theorem open_realm_needs_a_header
    (C : Config) (path username password : string) :
  auth_installed C = true ->
  authenticate C path None = Reject401 /\
  (String.prefix (BasePathAdmin C) path = true ->
   credential_checked (AuthMethodAdmin C) = false ->
   authenticate C path (Some (username, password)) = Allow) /\
  (String.prefix (BasePathAdmin C) path = false ->
   String.prefix (BasePath C) path = true \/ path = EmptyString ->
   credential_checked (AuthMethodAPI C) = false ->
   authenticate C path (Some (username, password)) = Allow).
Proof.
  intros Hi. unfold authenticate. rewrite Hi. split; [reflexivity|].
  unfold credential_checked. split.
  - intros Hp Hm. apply negb_false_iff in Hm.
    unfold validator. rewrite Hp, Hm. reflexivity.
  - intros Hp Hq Hm. apply negb_false_iff in Hm.
    unfold validator. rewrite Hp, Hm.
    destruct Hq as [-> | ->]; [reflexivity|].
    rewrite orb_true_r. reflexivity.
Qed.

(** ** The further properties at work *)

Lemma Delete_then_Query_witness :
  fst (Query "evil.example"
         (snd (Delete "evil.example" (snd (Add evil (fresh (calm 1700000000))))))) =
  (mkEntry "evil.example" epoch, None).
Proof.
  apply (Delete_then_Query "evil.example" (snd (Add evil (fresh (calm 1700000000))))).
  - vm_compute. reflexivity.
  - reflexivity.
  - vm_compute. reflexivity.
Defined.

Lemma Delete_absent_noop_witness :
  kv (snd (Delete "gone.example" (snd (Add evil (fresh (calm 1700000000)))))) =
  kv (snd (Add evil (fresh (calm 1700000000)))) /\
  fst (Delete "gone.example" (snd (Add evil (fresh (calm 1700000000))))) = None.
Proof.
  destruct (Delete_absent_noop "gone.example"
              (snd (Add evil (fresh (calm 1700000000))))) as [H1 H2].
  - vm_compute. reflexivity.
  - split; [exact H1 | apply H2; vm_compute; reflexivity].
Defined.

Lemma writes_are_local_witness :
  fst (Query "evil.example"
         (snd (Add other (snd (Add evil (fresh (calm 1700000000))))))) =
  fst (Query "evil.example" (snd (Add evil (fresh (calm 1700000000))))) /\
  fst (Query "evil.example"
         (snd (Delete "other.example" (snd (Add evil (fresh (calm 1700000000))))))) =
  fst (Query "evil.example" (snd (Add evil (fresh (calm 1700000000))))).
Proof.
  destruct (writes_are_local (snd (Add evil (fresh (calm 1700000000))))
              other "other.example" "evil.example") as [H1 H2].
  - vm_compute. reflexivity.
  - split.
    + apply H1; [discriminate | vm_compute; reflexivity].
    + apply H2; [discriminate | vm_compute; reflexivity].
Defined.

Lemma failed_write_changes_nothing_witness :
  kv (snd (Add evil (fresh broken))) = kv (fresh broken) /\
  kv (snd (Delete "evil.example" (fresh broken))) = kv (fresh broken).
Proof.
  destruct (failed_write_changes_nothing (fresh broken) evil "evil.example"
              (EngineErr FaultClosed)) as [H1 H2].
  split.
  - apply H1. vm_compute. reflexivity.
  - apply H2. vm_compute. reflexivity.
Defined.

Lemma AddMany_as_adds_witness :
  kv (snd (AddMany [evil; other; older] (fresh (calm 1700000000)))) =
  kv (add_each [evil; other; older] (fresh (calm 1700000000))).
Proof.
  apply (AddMany_as_adds [evil; other; older] (fresh (calm 1700000000))).
  intros i Hi. reflexivity.
Defined.

Lemma DeleteMany_as_deletes_witness :
  kv (snd (DeleteMany ["other.example"; "evil.example"]
             (snd (AddMany [evil; other] (fresh (calm 1700000000)))))) =
  kv (delete_each ["other.example"; "evil.example"]
        (snd (AddMany [evil; other] (fresh (calm 1700000000))))).
Proof.
  apply (DeleteMany_as_deletes ["other.example"; "evil.example"]
           (snd (AddMany [evil; other] (fresh (calm 1700000000))))).
  intros i Hi. reflexivity.
Defined.

Lemma addDomain_then_query_witness :
  fst (query PebbleDB "evil.example"
         (snd (addDomain PebbleDB (Some evil) (fresh (calm 1700000000))))) =
  mkResponse 200 (BodyEntry "evil.example" (mkTime 1704067200 0)).
Proof.
  apply (addDomain_then_query evil (fresh (calm 1700000000))).
  - unfold Time_valid, Int64.in_range, Int64.min_int, Int64.max_int. simpl. lia.
  - discriminate.
  - vm_compute. reflexivity.
  - vm_compute. reflexivity.
Defined.

Lemma validator_on_routes_witness :
  validator (mkConfig "/api/" "/admin" "none" ∅ "plain" ∅)
    "/api/query/:domain" "user" "secret" = true /\
  validator two_realms "" "operator" "admin-secret" = false.
Proof.
  split.
  - rewrite (validator_on_routes (mkConfig "/api/" "/admin" "none" ∅ "plain" ∅)
               "/api/query/:domain" "user" "secret").
    + vm_compute. reflexivity.
    + reflexivity.
    + reflexivity.
    + left. simpl. tauto.
  - rewrite (validator_on_routes two_realms "" "operator" "admin-secret").
    + vm_compute. reflexivity.
    + reflexivity.
    + reflexivity.
    + right. reflexivity.
Defined.

Lemma admin_routes_admin_realm_witness :
  validator shipped "/admin/add_domains" "username2" "password2" = true /\
  validator shipped "/admin/delete_domains" "username2" "password1" = false.
Proof.
  split.
  - refine (eq_trans (admin_routes_admin_realm shipped (POST, "/admin/add_domains")
                        "username2" "password2" _ _) _).
    + reflexivity.
    + simpl. tauto.
    + vm_compute. reflexivity.
  - refine (eq_trans (admin_routes_admin_realm shipped
                        (DELETE, "/admin/delete_domains")
                        "username2" "password1" _ _) _).
    + reflexivity.
    + simpl. tauto.
    + vm_compute. reflexivity.
Defined.

Lemma admin_base_shadows_query_witness :
  validator nested_bases "/query/:domain" "reader" "read-secret" = false /\
  validator nested_bases "/query_many" "operator" "admin-secret" = true.
Proof.
  split.
  - refine (eq_trans (admin_base_shadows_query nested_bases (GET, "/query/:domain")
                        "reader" "read-secret" _ _ _) _).
    + reflexivity.
    + reflexivity.
    + simpl. tauto.
    + vm_compute. reflexivity.
  - refine (eq_trans (admin_base_shadows_query nested_bases (GET, "/query_many")
                        "operator" "admin-secret" _ _ _) _).
    + reflexivity.
    + reflexivity.
    + simpl. tauto.
    + vm_compute. reflexivity.
Defined.

Lemma unrooted_query_base_locks_routes_witness :
  validator (mkConfig "api/" "/admin" "none" ∅ "plain" ∅)
    "/api/query/:domain" "anyone" "anything" = false.
Proof.
  apply (unrooted_query_base_locks_routes
           (mkConfig "api/" "/admin" "none" ∅ "plain" ∅) "a" "pi/"
           (GET, "api/query/:domain") "anyone" "anything").
  - reflexivity.
  - discriminate.
  - simpl. tauto.
  - reflexivity.
Defined.

Lemma unrooted_admin_base_opens_routes_witness :
  validator (mkConfig "/" "admin" "none" ∅ "plain" {[ "operator" := "admin-secret" ]})
    "/admin/delete_domains" "anyone" "anything" = true.
Proof.
  refine (eq_trans (unrooted_admin_base_opens_routes
                      (mkConfig "/" "admin" "none" ∅ "plain"
                         {[ "operator" := "admin-secret" ]}) "a" "dmin"
                      (DELETE, "admin/delete_domains") "anyone" "anything"
                      _ _ _ _) _).
  - reflexivity.
  - discriminate.
  - reflexivity.
  - simpl. tauto.
  - vm_compute. reflexivity.
Defined.

Lemma match_any_any_order_witness :
  match_any "username2" "password2"
    [("username1", "password1"); ("username2", "password2")] =
  match_any "username2" "password2"
    [("username2", "password2"); ("username1", "password1")].
Proof.
  apply (match_any_any_order "username2" "password2"
           [("username1", "password1"); ("username2", "password2")]
           [("username2", "password2"); ("username1", "password1")]).
  apply perm_swap.
Defined.

Lemma open_realm_needs_a_header_witness :
  authenticate shipped "/query/:domain" None = Reject401 /\
  authenticate shipped "/query/:domain" (Some ("anyone", "anything")) = Allow.
Proof.
  destruct (open_realm_needs_a_header shipped "/query/:domain"
              "anyone" "anything") as (H1 & _ & H3).
  - reflexivity.
  - split; [exact H1|].
    apply H3; [reflexivity | left; reflexivity | reflexivity].
Defined.
